(** * Mpire Ping Pong: the simulation loop of [components/Game.tsx]

    A shallow embedding of the physics-and-AI loop ([GameScene]'s
    [useFrame] callback), of the ball reset helper [doReset] and of the
    match state machine kept by the root component [Game].

    Numbers.  JavaScript numbers are modelled as mathematical reals: no
    rounding, no NaN, no infinities.  Score counters are naturals.

    State.  React keeps two views of the match: the state cells written by
    [setPhase], [setScores], ... and the snapshot of them that the last
    render handed to the closures and to the DOM.  Both are kept, and
    [Render] is an event of its own, so that the [scoredRef] guard of
    [GameScene] has the job it has in the source.  Mutable refs are fields
    of one shared record.  The deferred reset of [handleScore] is a queue of
    pending timers (all have the same delay, so they fire in the order in
    which they were scheduled). *)

From Stdlib Require Import Reals Lra Bool List Arith Lia.
Import ListNotations.
Open Scope R_scope.

(** ** Comparisons as booleans *)

Definition Rltb (a b : R) : bool := if Rlt_dec a b then true else false.
Definition Rleb (a b : R) : bool := if Rle_dec a b then true else false.

(** ** THREE.Vector3, the part the game uses *)

Module V3.

Record vec3 : Type := mk { x : R; y : R; z : R }.

Definition lengthSq (v : vec3) : R := x v * x v + y v * y v + z v * z v.

(** [Vector3.length]: [Math.sqrt(x*x + y*y + z*z)]. *)
Definition length (v : vec3) : R := sqrt (lengthSq v).

Definition multiplyScalar (v : vec3) (k : R) : vec3 :=
  mk (x v * k) (y v * k) (z v * k).

(** [Vector3.divideScalar(s)] is [multiplyScalar(1 / s)]. *)
Definition divideScalar (v : vec3) (k : R) : vec3 := multiplyScalar v (1 / k).

(** [Vector3.normalize()] is [divideScalar(length() || 1)]: a zero length is
    replaced by 1. *)
Definition normalize (v : vec3) : vec3 :=
  divideScalar v (if Req_dec_T (length v) 0 then 1 else length v).

Definition setX (v : vec3) (a : R) : vec3 := mk a (y v) (z v).
Definition setZ (v : vec3) (a : R) : vec3 := mk (x v) (y v) a.

End V3.

Abbreviation vec3 := V3.vec3.

(** ** Constants *)

Definition TABLE_W : R := 6.
Definition TABLE_D : R := 10.
Definition TABLE_H : R := 0.15.
Definition PADDLE_W : R := 1.2.
Definition PADDLE_D : R := 0.25.
Definition BALL_R : R := 0.15.
Definition WIN_SCORE : nat := 7.
Definition PLAYER_Z : R := TABLE_D / 2 - 0.5.
Definition AI_Z : R := - TABLE_D / 2 + 0.5.
Definition BALL_LAUNCH_SPEED : R := 3.5.

(** [type Difficulty] and [type Phase] (string literal unions). *)
Inductive Difficulty : Type := easy | medium | hard | very_hard.

Inductive Phase : Type :=
  | Start | Rules | DifficultySelect | Playing | BetweenPoints | Won.

(** The two sides: the scorer passed to [onScore] and the recorded winner. *)
Inductive Side : Type := Player | AI.

Definition Phase_eqb (p q : Phase) : bool :=
  match p, q with
  | Start, Start | Rules, Rules | DifficultySelect, DifficultySelect
  | Playing, Playing | BetweenPoints, BetweenPoints | Won, Won => true
  | _, _ => false
  end.

Record Profile : Type := { lerp : R; speedInit : R; speedMax : R }.

Definition DIFF (d : Difficulty) : Profile :=
  match d with
  | easy      => {| lerp := 0.038; speedInit := 8;  speedMax := 18 |}
  | medium    => {| lerp := 0.075; speedInit := 10; speedMax := 24 |}
  | hard      => {| lerp := 0.14;  speedInit := 13; speedMax := 30 |}
  | very_hard => {| lerp := 0.55;  speedInit := 16; speedMax := 38 |}
  end.

(** ** The state *)

Record Scores : Type := { player : nat; ai : nat }.

(** The [useState] cells of [Game]. *)
Record GameState : Type := {
  phase : Phase;
  difficulty : Difficulty;
  scores : Scores;
  winner : option Side
}.

(** The refs created by [Game] and shared with [GameScene] and [doReset]. *)
Record Refs : Type := {
  ndcRef : R * R;
  ballRef : vec3;
  velRef : vec3;
  playerXRef : R;
  aiXRef : R;
  firstHitRef : bool
}.

(** What [GameScene] holds: the props of its last render and its own refs. *)
Record Scene : Type := {
  props_phase : Phase;
  props_difficulty : Difficulty;
  scoredRef : bool;
  prevPhase : Phase
}.

(** A pending [setTimeout] callback of [handleScore]: the values its closure
    captured. *)
Record Timer : Type := { timer_diff : Difficulty; timer_towardPlayer : bool }.

Record World : Type := {
  game : GameState;
  refs : Refs;
  scene : Scene;
  timers : list Timer
}.

Definition setPhase (p : Phase) (g : GameState) : GameState :=
  {| phase := p; difficulty := difficulty g; scores := scores g;
     winner := winner g |}.

Definition with_game (g : GameState) (w : World) : World :=
  {| game := g; refs := refs w; scene := scene w; timers := timers w |}.

Definition with_refs (r : Refs) (w : World) : World :=
  {| game := game w; refs := r; scene := scene w; timers := timers w |}.

Definition with_scored (b : bool) (w : World) : World :=
  {| game := game w; refs := refs w;
     scene := {| props_phase := props_phase (scene w);
                 props_difficulty := props_difficulty (scene w);
                 scoredRef := b;
                 prevPhase := prevPhase (scene w) |};
     timers := timers w |}.

(** ** One frame of physics *)

Definition maxPX : R := TABLE_W / 2 - PADDLE_W / 2.
Definition maxAX : R := TABLE_W / 2 - PADDLE_W / 2.
Definition wallX : R := TABLE_W / 2 - BALL_R.

(** [Math.max(-m, Math.min(m, a))]. *)
Definition clampOffset (m a : R) : R := Rmax (- m) (Rmin m a).

(** [pos.x += vel.x * dt; pos.z += vel.z * dt]. *)
Definition integrate (pos vel : vec3) (dt : R) : vec3 :=
  V3.mk (V3.x pos + V3.x vel * dt) (V3.y pos) (V3.z pos + V3.z vel * dt).

(** The two wall tests, in the order of the source; the second reads what
    the first wrote. *)
Definition wallRight (pv : vec3 * vec3) : vec3 * vec3 :=
  let (pos, vel) := pv in
  if Rltb wallX (V3.x pos)
  then (V3.setX pos wallX, V3.setX vel (- Rabs (V3.x vel)))
  else pv.

Definition wallLeft (pv : vec3 * vec3) : vec3 * vec3 :=
  let (pos, vel) := pv in
  if Rltb (V3.x pos) (- wallX)
  then (V3.setX pos (- wallX), V3.setX vel (Rabs (V3.x vel)))
  else pv.

Definition wallReflect (pv : vec3 * vec3) : vec3 * vec3 :=
  wallLeft (wallRight pv).

(** [aiX += (pos.x - aiX) * lerp], then the clamp. *)
Definition aiPursuit (g bx a : R) : R :=
  clampOffset maxAX (a + (bx - a) * g).

(** The contact tests. *)
Definition playerContact (pos vel : vec3) (px : R) : bool :=
  Rltb 0 (V3.z vel)
  && Rleb (PLAYER_Z - PADDLE_D / 2 - BALL_R) (V3.z pos)
  && Rleb (V3.z pos) (PLAYER_Z + PADDLE_D / 2 + BALL_R)
  && Rltb (Rabs (V3.x pos - px)) (PADDLE_W / 2 + BALL_R).

Definition aiContact (pos vel : vec3) (ax : R) : bool :=
  Rltb (V3.z vel) 0
  && Rleb (V3.z pos) (AI_Z + PADDLE_D / 2 + BALL_R)
  && Rleb (AI_Z - PADDLE_D / 2 - BALL_R) (V3.z pos)
  && Rltb (Rabs (V3.x pos - ax)) (PADDLE_W / 2 + BALL_R).

(** Depth inversion and deflection: the velocity as it stands when the
    speed branch is entered. *)
Definition playerDeflect (pos vel : vec3) (px : R) : vec3 :=
  V3.mk (V3.x vel + ((V3.x pos - px) / (PADDLE_W / 2)) * 3)
        (V3.y vel)
        (- Rabs (V3.z vel)).

Definition aiDeflect (pos vel : vec3) (ax : R) : vec3 :=
  V3.mk (V3.x vel + ((V3.x pos - ax) / (PADDLE_W / 2)) * 2)
        (V3.y vel)
        (Rabs (V3.z vel)).

(** The speed branch, the same in both paddles up to the growth factor:
    first hit, snap to [speedInit]; later hits, grow while below
    [speedMax]. *)
Definition hitSpeed (d : Difficulty) (growth : R) (firstHit : bool) (v : vec3)
  : vec3 :=
  if negb firstHit
  then V3.multiplyScalar (V3.normalize v) (speedInit (DIFF d))
  else if Rltb (V3.length v) (speedMax (DIFF d))
       then V3.multiplyScalar v growth
       else v.

Definition playerHit (d : Difficulty) (px : R) (firstHit : bool)
  (pv : vec3 * vec3) : vec3 * vec3 :=
  let (pos, vel) := pv in
  (V3.setZ pos (PLAYER_Z - PADDLE_D / 2 - BALL_R),
   hitSpeed d 1.05 firstHit (playerDeflect pos vel px)).

Definition aiHit (d : Difficulty) (ax : R) (firstHit : bool)
  (pv : vec3 * vec3) : vec3 * vec3 :=
  let (pos, vel) := pv in
  (V3.setZ pos (AI_Z + PADDLE_D / 2 + BALL_R),
   hitSpeed d 1.03 firstHit (aiDeflect pos vel ax)).

(** The scoring tests: who, if anyone, [onScore] is called with. *)
Definition scoreTest (pos : vec3) : option Side :=
  if Rltb (TABLE_D / 2 + 0.5) (V3.z pos) then Some AI
  else if Rltb (V3.z pos) (- TABLE_D / 2 - 0.5) then Some Player
  else None.

(** The body of the [useFrame] callback after its guard, stage by stage.
    [kinematics]: integration with the clamped [dt], then the walls. *)
Definition kinematics (r : Refs) (delta : R) : vec3 * vec3 :=
  wallReflect
    (integrate (ballRef r) (velRef r) (Rmin delta 0.05), velRef r).

(** The two paddle offsets of this frame. *)
Definition playerMove (r : Refs) : R :=
  clampOffset maxPX (fst (ndcRef r) * (TABLE_W / 2) * 1.1).

Definition aiMove (d : Difficulty) (r : Refs) (delta : R) : R :=
  aiPursuit (lerp (DIFF d)) (V3.x (fst (kinematics r delta))) (aiXRef r).

(** The player paddle: whether it is hit, and ball and velocity after it. *)
Definition playerHits (r : Refs) (delta : R) : bool :=
  playerContact (fst (kinematics r delta)) (snd (kinematics r delta))
                (playerMove r).

Definition afterPlayer (d : Difficulty) (r : Refs) (delta : R) : vec3 * vec3 :=
  if playerHits r delta
  then playerHit d (playerMove r) (firstHitRef r) (kinematics r delta)
  else kinematics r delta.

(** The AI paddle, which reads what the player stage wrote. *)
Definition aiHits (d : Difficulty) (r : Refs) (delta : R) : bool :=
  aiContact (fst (afterPlayer d r delta)) (snd (afterPlayer d r delta))
            (aiMove d r delta).

Definition afterAI (d : Difficulty) (r : Refs) (delta : R) : vec3 * vec3 :=
  if aiHits d r delta
  then aiHit d (aiMove d r delta) (firstHitRef r || playerHits r delta)
             (afterPlayer d r delta)
  else afterPlayer d r delta.

(** The refs the frame leaves and the scoring signal. *)
Definition simulate (d : Difficulty) (r : Refs) (delta : R)
  : Refs * option Side :=
  ({| ndcRef := ndcRef r;
      ballRef := fst (afterAI d r delta);
      velRef := snd (afterAI d r delta);
      playerXRef := playerMove r;
      aiXRef := aiMove d r delta;
      firstHitRef := firstHitRef r || playerHits r delta || aiHits d r delta |},
   scoreTest (fst (afterAI d r delta))).

(** ** Reset, score handling, rendering *)

Definition BALL_Y : R := TABLE_H / 2 + BALL_R + 0.01.

(** [doReset]; [u] is the value [Math.random()] returns.  The [diff]
    argument is not read by the source either. *)
Definition launchAngle (u : R) : R := (u - 0.5) * 0.5.

Definition doReset (r : Refs) (u : R) (diff : Difficulty) (towardPlayer : bool)
  : Refs :=
  let a := launchAngle u in
  {| ndcRef := ndcRef r;
     ballRef := V3.mk 0 BALL_Y 0;
     velRef := V3.mk (sin a * BALL_LAUNCH_SPEED)
                     0
                     ((if towardPlayer then 1 else -1) * cos a
                      * BALL_LAUNCH_SPEED);
     playerXRef := playerXRef r;
     aiXRef := aiXRef r;
     firstHitRef := false |}.

(** [startGame]. *)
Definition startGame (w : World) (diff : Difficulty) (u : R) : World :=
  {| game := {| phase := Playing; difficulty := diff;
                scores := {| player := 0; ai := 0 |}; winner := None |};
     refs := doReset (refs w) u diff true;
     scene := scene w;
     timers := timers w |}.

Definition isAI (s : Side) : bool :=
  match s with AI => true | Player => false end.

Definition nextScores (prev : Scores) (scorer : Side) : Scores :=
  {| player := match scorer with Player => player prev + 1 | AI => player prev end;
     ai := match scorer with AI => ai prev + 1 | Player => ai prev end |}.

(** [handleScore]: the updater given to [setScores], with the calls it makes.
    The callback closes over the [difficulty] of the last render. *)
Definition handleScore (w : World) (scorer : Side) : World :=
  let prev := scores (game w) in
  let next := nextScores prev scorer in
  if (WIN_SCORE <=? player next)%nat then
    with_game {| phase := Won; difficulty := difficulty (game w);
                 scores := next; winner := Some Player |} w
  else if (WIN_SCORE <=? ai next)%nat then
    with_game {| phase := Won; difficulty := difficulty (game w);
                 scores := next; winner := Some AI |} w
  else
    {| game := {| phase := BetweenPoints; difficulty := difficulty (game w);
                  scores := next; winner := winner (game w) |};
       refs := refs w;
       scene := scene w;
       timers := timers w ++
                 [{| timer_diff := props_difficulty (scene w);
                     timer_towardPlayer := isAI scorer |}] |}.

(** The callback of a timer when it fires. *)
Definition fireTimer (w : World) (t : Timer) (u : R) : World :=
  {| game := setPhase Playing (game w);
     refs := doReset (refs w) u (timer_diff t) (timer_towardPlayer t);
     scene := scene w;
     timers := timers w |}.

(** The [useFrame] callback.  Its [phase] and [difficulty] are those of the
    last render. *)
Definition useFrame (w : World) (delta : R) : World :=
  if negb (Phase_eqb (props_phase (scene w)) Playing) || scoredRef (scene w)
  then w
  else
    let (r', signal) := simulate (props_difficulty (scene w)) (refs w) delta in
    match signal with
    | Some s => handleScore (with_scored true (with_refs r' w)) s
    | None => with_refs r' w
    end.

(** What [onScore] is called with during a frame, if it is called. *)
Definition frameSignal (w : World) (delta : R) : option Side :=
  if negb (Phase_eqb (props_phase (scene w)) Playing) || scoredRef (scene w)
  then None
  else snd (simulate (props_difficulty (scene w)) (refs w) delta).

(** A render of [Game] and [GameScene]: the props follow the state cells and
    the body of [GameScene] compares [prevPhase] with the new phase. *)
Definition render (w : World) : World :=
  let p := phase (game w) in
  let changed := negb (Phase_eqb (prevPhase (scene w)) p) in
  {| game := game w;
     refs := refs w;
     scene := {| props_phase := p;
                 props_difficulty := difficulty (game w);
                 scoredRef := if changed && Phase_eqb p Playing
                              then false else scoredRef (scene w);
                 prevPhase := if changed then p else prevPhase (scene w) |};
     timers := timers w |}.

(** ** Events *)

Inductive Button : Type :=
  | HowToPlay | Play | Back | SelectDifficulty | Menu | PlayAgain.

Inductive Event : Type :=
  | Frame (delta : R)
  | Render
  | Pointer (nx ny : R)
  | Click (b : Button)
  | PickTier (d : Difficulty) (u : R)
  | TimerFire (u : R).

(** The buttons exist in the phase of the last render only. *)
Definition click (w : World) (b : Button) : World :=
  match props_phase (scene w), b with
  | Start, HowToPlay => with_game (setPhase Rules (game w)) w
  | Start, Play => with_game (setPhase DifficultySelect (game w)) w
  | Rules, Back => with_game (setPhase Start (game w)) w
  | Rules, SelectDifficulty => with_game (setPhase DifficultySelect (game w)) w
  | DifficultySelect, Back => with_game (setPhase Start (game w)) w
  | Playing, Menu => with_game (setPhase Start (game w)) w
  | BetweenPoints, Menu => with_game (setPhase Start (game w)) w
  | Won, PlayAgain => with_game (setPhase DifficultySelect (game w)) w
  | Won, Menu => with_game (setPhase Start (game w)) w
  | _, _ => w
  end.

Definition setNdc (w : World) (nx ny : R) : World :=
  with_refs {| ndcRef := (nx, ny); ballRef := ballRef (refs w);
               velRef := velRef (refs w); playerXRef := playerXRef (refs w);
               aiXRef := aiXRef (refs w); firstHitRef := firstHitRef (refs w) |}
            w.

Definition step (w : World) (e : Event) : World :=
  match e with
  | Frame delta => useFrame w delta
  | Render => render w
  | Pointer nx ny => setNdc w nx ny
  | Click b => click w b
  | PickTier d u =>
      match props_phase (scene w) with
      | DifficultySelect => startGame w d u
      | _ => w
      end
  | TimerFire u =>
      match timers w with
      | [] => w
      | t :: ts =>
          fireTimer {| game := game w; refs := refs w; scene := scene w;
                       timers := ts |} t u
      end
  end.

Definition run (w : World) (es : list Event) : World := fold_left step es w.

(** The scoring signals raised along a run. *)
Fixpoint signals (w : World) (es : list Event) : list Side :=
  match es with
  | [] => []
  | e :: es' =>
      match e with
      | Frame delta =>
          match frameSignal w delta with
          | Some s => s :: signals (step w e) es'
          | None => signals (step w e) es'
          end
      | _ => signals (step w e) es'
      end
  end.

(** The state [Game] mounts with. *)
Definition initial : World :=
  {| game := {| phase := Start; difficulty := medium;
                scores := {| player := 0; ai := 0 |}; winner := None |};
     refs := {| ndcRef := (0, 0);
                ballRef := V3.mk 0 BALL_Y 0;
                velRef := V3.mk 0 0 BALL_LAUNCH_SPEED;
                playerXRef := 0; aiXRef := 0; firstHitRef := false |};
     scene := {| props_phase := Start; props_difficulty := medium;
                 scoredRef := false; prevPhase := Start |};
     timers := [] |}.

(** Events the environment can really deliver: frame deltas are not
    negative and [Math.random()] is in [[0, 1)]. *)
Definition admissible (e : Event) : Prop :=
  match e with
  | Frame delta => 0 <= delta
  | PickTier _ u | TimerFire u => 0 <= u < 1
  | _ => True
  end.

Inductive reachable : World -> Prop :=
  | reach_initial : reachable initial
  | reach_step w e : reachable w -> admissible e -> reachable (step w e).

(** ** Runs between a score and the next point *)

(** A render in which [GameScene] sees the phase change to Playing: the
    only place where [scoredRef] is cleared. *)
Definition reenters (w : World) (e : Event) : bool :=
  match e with
  | Render =>
      negb (Phase_eqb (prevPhase (scene w)) (phase (game w)))
      && Phase_eqb (phase (game w)) Playing
  | _ => false
  end.

(** No event of the run is such a render. *)
Fixpoint quiet (w : World) (es : list Event) : Prop :=
  match es with
  | [] => True
  | e :: es' => reenters w e = false /\ quiet (step w e) es'
  end.

(** Every frame of the run leaves the whole state as it is. *)
Fixpoint framesIdle (w : World) (es : list Event) : Prop :=
  match es with
  | [] => True
  | e :: es' =>
      match e with
      | Frame delta => useFrame w delta = w
      | _ => True
      end
      /\ framesIdle (step w e) es'
  end.

(** ** Sample states *)

(** From the start screen into a match on the easy tier, the random draw
    being 0.5 (a straight serve). *)
Definition opening : list Event :=
  [Click Play; Render; PickTier easy 0.5; Render].

Definition kickoff : World := run initial opening.

(** A ball about to pass the right wall in mid table. *)
Definition wallRefs : Refs :=
  {| ndcRef := (0, 0);
     ballRef := V3.mk 2.84 BALL_Y 0;
     velRef := V3.mk 1 0 9;
     playerXRef := 0; aiXRef := 0; firstHitRef := true |}.

(** A ball about to pass the right wall in front of the player's paddle,
    the pointer being at the right edge. *)
Definition cornerRefs : Refs :=
  {| ndcRef := (1, 0);
     ballRef := V3.mk 2.84 BALL_Y 4.2;
     velRef := V3.mk 1 0 9;
     playerXRef := 2.4; aiXRef := 2; firstHitRef := true |}.

(** A serve reaching the player's paddle: no paddle has been hit yet. *)
Definition serveRefs : Refs :=
  {| ndcRef := (0.1, 0);
     ballRef := V3.mk 0 BALL_Y 4.2;
     velRef := V3.mk 0 0 3.5;
     playerXRef := 0; aiXRef := 0; firstHitRef := false |}.

(** A rally ball, a little slower than the easy tier's [speedMax], coming
    straight at the centre of the player's paddle. *)
Definition rallyRefs : Refs :=
  {| ndcRef := (0, 0);
     ballRef := V3.mk 0 BALL_Y 4;
     velRef := V3.mk 0 0 17.9;
     playerXRef := 0; aiXRef := 0; firstHitRef := true |}.

(** A match at 2 : 6 on the easy tier; the ball has passed the player's
    paddle row on its right and is about to leave the table. *)
Definition matchPoint : World :=
  {| game := {| phase := Playing; difficulty := easy;
                scores := {| player := 2; ai := 6 |}; winner := None |};
     refs := {| ndcRef := (0, 0);
                ballRef := V3.mk 2 BALL_Y 5.4;
                velRef := V3.mk 0 0 8;
                playerXRef := 0; aiXRef := 0; firstHitRef := true |};
     scene := {| props_phase := Playing; props_difficulty := easy;
                 scoredRef := false; prevPhase := Playing |};
     timers := [] |}.

(** The serve of [kickoff] in flight at depth [z], the pointer at the
    right edge of the surface and the player's paddle at [px]. *)
Definition flying (px z : R) : World :=
  {| game := {| phase := Playing; difficulty := easy;
                scores := {| player := 0; ai := 0 |}; winner := None |};
     refs := {| ndcRef := (1, 0);
                ballRef := V3.mk 0 BALL_Y z;
                velRef := V3.mk 0 0 3.5;
                playerXRef := px; aiXRef := 0; firstHitRef := false |};
     scene := {| props_phase := Playing; props_difficulty := easy;
                 scoredRef := false; prevPhase := Playing |};
     timers := [] |}.

(** A match is started, the player keeps the paddle at the right edge and
    lets the serve pass (32 frames of 50 ms), and returns to the menu while
    the reset scheduled by the score is pending. *)
Definition abandon : list Event :=
  opening ++ [Pointer 1 0] ++ repeat (Frame 0.05) 32
  ++ [Render; Click Menu; Render].

(** The state [abandon] ends in: the start screen is shown, the point is
    counted, the ball lies behind the player's end, one timer is pending. *)
Definition abandoned : World :=
  {| game := {| phase := Start; difficulty := easy;
                scores := {| player := 0; ai := 1 |}; winner := None |};
     refs := refs (flying 2.4 5.6);
     scene := {| props_phase := Start; props_difficulty := easy;
                 scoredRef := true; prevPhase := Start |};
     timers := [{| timer_diff := easy; timer_towardPlayer := true |}] |}.

(** ** A straight rally *)

(** A match on the easy tier at 0 : 0 in which everything stays on the
    centre line: pointer, both paddles and ball at [x = 0], the ball at
    depth [z] moving along the depth axis with velocity [vz]. *)
Definition rallying (z vz : R) (firstHit : bool) : World :=
  {| game := {| phase := Playing; difficulty := easy;
                scores := {| player := 0; ai := 0 |}; winner := None |};
     refs := {| ndcRef := (0, 0);
                ballRef := V3.mk 0 BALL_Y z;
                velRef := V3.mk 0 0 vz;
                playerXRef := 0; aiXRef := 0; firstHitRef := firstHit |};
     scene := {| props_phase := Playing; props_difficulty := easy;
                 scoredRef := false; prevPhase := Playing |};
     timers := [] |}.

(** Forty equal frames that carry a ball of speed [s] from one paddle into
    the band of the other. *)
Definition legDelta (s : R) : R := 8.65 / (40 * s).

Definition leg (s : R) : list Event := repeat (Frame (legDelta s)) 40.

Definition grown (s : R) (toAI : bool) : R :=
  s * (if toAI then 1.03 else 1.05).

(** [n] legs, the first one toward the AI when [toAI] is set, each at the
    speed the paddle before it left. *)
Fixpoint rallyLegs (n : nat) (s : R) (toAI : bool) : list Event :=
  match n with
  | O => []
  | S n' => leg s ++ rallyLegs n' (grown s toAI) (negb toAI)
  end.

Fixpoint rallySpeed (n : nat) (s : R) (toAI : bool) : R :=
  match n with
  | O => s
  | S n' => rallySpeed n' (grown s toAI) (negb toAI)
  end.

Fixpoint rallySide (n : nat) (toAI : bool) : bool :=
  match n with
  | O => toAI
  | S n' => rallySide n' (negb toAI)
  end.

(** Every leg is played at a speed in [[8, 18)]. *)
Fixpoint rallyBelow (n : nat) (s : R) (toAI : bool) : Prop :=
  match n with
  | O => True
  | S n' => 8 <= s < 18 /\ rallyBelow n' (grown s toAI) (negb toAI)
  end.

(** The ball just struck: by the player when the leg goes toward the AI. *)
Definition legStart (s : R) (toAI : bool) : World :=
  if toAI then rallying 4.225 (- s) true else rallying (- 4.225) s true.

(** Straight serve, first hit by the player after 25 frames, twenty legs,
    and the twenty-first up to the frame before the AI's paddle. *)
Definition straightRally : list Event :=
  opening ++ repeat (Frame 0.05) 25 ++ rallyLegs 20 8 true
  ++ repeat (Frame (legDelta (rallySpeed 20 8 true))) 39.

(** ** Pointer handlers *)

(** The fields of the [DOMRect] the handlers read. *)
Record Rect : Type := {
  rect_left : R; rect_top : R; rect_width : R; rect_height : R
}.

(** The normalised coordinates the three handlers compute. *)
Definition ndcOf (r : Rect) (clientX clientY : R) : R * R :=
  (((clientX - rect_left r) / rect_width r) * 2 - 1,
   - ((clientY - rect_top r) / rect_height r) * 2 + 1).

(** [handleMouseMove]. *)
Definition handleMouseMove (w : World) (r : Rect) (clientX clientY : R)
  : World :=
  setNdc w (fst (ndcOf r clientX clientY)) (snd (ndcOf r clientX clientY)).

(** [handleTouchMove] and [handleTouchStart], which have the same body:
    [touches] is [e.touches], a touch being its [clientX] and [clientY]. *)
Definition handleTouchMove (w : World) (r : Rect) (touches : list (R * R))
  : World :=
  match touches with
  | [] => w
  | (clientX, clientY) :: _ => handleMouseMove w r clientX clientY
  end.

Definition handleTouchStart (w : World) (r : Rect) (touches : list (R * R))
  : World :=
  match touches with
  | [] => w
  | (clientX, clientY) :: _ => handleMouseMove w r clientX clientY
  end.

(** ** Audio cues *)

(** A call of [beep]: frequency and duration.  [beep] swallows every
    failure of the audio subsystem and returns nothing, so a cue is only a
    record of the call. *)
Definition Cue : Type := (R * R)%type.

(** The calls of [beep] a frame makes after its guard, in order: the two
    wall tests, the player's paddle, the AI's paddle. *)
Definition frameCues (d : Difficulty) (r : Refs) (delta : R) : list Cue :=
  let moved := integrate (ballRef r) (velRef r) (Rmin delta 0.05) in
  (if Rltb wallX (V3.x moved) then [(300, 0.05)] else [])
  ++ (if Rltb (V3.x (fst (wallRight (moved, velRef r)))) (- wallX)
      then [(300, 0.05)] else [])
  ++ (if playerHits r delta then [(640, 0.09)] else [])
  ++ (if aiHits d r delta then [(520, 0.09)] else []).

(** The cues of the [useFrame] callback, guard included. *)
Definition useFrameCues (w : World) (delta : R) : list Cue :=
  if negb (Phase_eqb (props_phase (scene w)) Playing) || scoredRef (scene w)
  then []
  else frameCues (props_difficulty (scene w)) (refs w) delta.

(** ** Tallies *)

Definition Side_eqb (a b : Side) : bool :=
  match a, b with
  | Player, Player | AI, AI => true
  | _, _ => false
  end.

(** How often a side occurs among the signals of a run. *)
Definition tally (s : Side) (l : list Side) : nat :=
  List.length (filter (Side_eqb s) l).

(** A run in which no tier is picked, that is, no match is started. *)
Definition noRestart (es : list Event) : Prop :=
  Forall (fun e => match e with PickTier _ _ => False | _ => True end) es.

(** The recorded winner agrees with the counters. *)
Definition scoreInv (g : GameState) : Prop :=
  (winner g = None -> player (scores g) < 7 /\ ai (scores g) < 7)%nat
  /\ (winner g = Some Player -> 7 <= player (scores g))%nat
  /\ (winner g = Some AI -> 7 <= ai (scores g) /\ player (scores g) < 7)%nat
  /\ (phase g = Won -> winner g <> None)
  /\ (phase g = BetweenPoints ->
      winner g = None /\ player (scores g) < 7 /\ ai (scores g) < 7)%nat.

(** ** The mirror image of a state *)

(** Left and right exchanged: the horizontal coordinate of pointer, ball,
    velocity and paddles changes sign. *)
Definition mirrorV (v : vec3) : vec3 := V3.mk (- V3.x v) (V3.y v) (V3.z v).

Definition mirrorRefs (r : Refs) : Refs :=
  {| ndcRef := (- fst (ndcRef r), snd (ndcRef r));
     ballRef := mirrorV (ballRef r);
     velRef := mirrorV (velRef r);
     playerXRef := - playerXRef r;
     aiXRef := - aiXRef r;
     firstHitRef := firstHitRef r |}.

(** ** The body of [GameScene] *)

(** What a run of the body of [GameScene] does to its refs, given the props
    [phase] and [difficulty]: the comparison of [prevPhase] with the phase
    prop.  [render] is this body run on the state cells. *)
Definition gameSceneBody (p : Phase) (d : Difficulty) (sc : Scene) : Scene :=
  let changed := negb (Phase_eqb (prevPhase sc) p) in
  {| props_phase := p;
     props_difficulty := d;
     scoredRef := if changed && Phase_eqb p Playing
                  then false else scoredRef sc;
     prevPhase := if changed then p else prevPhase sc |}.

(** A run in which no timer fires. *)
Definition noTimerFire (es : list Event) : Prop :=
  Forall (fun e => match e with TimerFire _ => False | _ => True end) es.

(** A match at 0 : 0 on the easy tier; the ball has passed the AI's paddle
    row on its left and is about to leave the table. *)
Definition aiMissed : World :=
  {| game := {| phase := Playing; difficulty := easy;
                scores := {| player := 0; ai := 0 |}; winner := None |};
     refs := {| ndcRef := (0, 0);
                ballRef := V3.mk 2 BALL_Y (- 5.4);
                velRef := V3.mk 0 0 (- 8);
                playerXRef := 0; aiXRef := 0; firstHitRef := true |};
     scene := {| props_phase := Playing; props_difficulty := easy;
                 scoredRef := false; prevPhase := Playing |};
     timers := [] |}.

(** * Properties *)

(** ** Booleans and vectors *)

Lemma Rltb_true (a b : R) : Rltb a b = true <-> a < b.
Proof. unfold Rltb. destruct (Rlt_dec a b); split; intros; try easy. Qed.

Lemma Rltb_false (a b : R) : Rltb a b = false <-> b <= a.
Proof.
  unfold Rltb. destruct (Rlt_dec a b); split; intros; try easy; lra.
Qed.

Lemma Rleb_true (a b : R) : Rleb a b = true <-> a <= b.
Proof. unfold Rleb. destruct (Rle_dec a b); split; intros; try easy. Qed.

Lemma Rleb_false (a b : R) : Rleb a b = false <-> b < a.
Proof.
  unfold Rleb. destruct (Rle_dec a b); split; intros; try easy; lra.
Qed.

Lemma Phase_eqb_eq (p q : Phase) : Phase_eqb p q = true <-> p = q.
Proof. destruct p, q; simpl; split; intros; congruence. Qed.

Lemma Phase_eqb_refl (p : Phase) : Phase_eqb p p = true.
Proof. now destruct p. Qed.

Ltac consts :=
  unfold BALL_Y, wallX, maxAX, maxPX, PLAYER_Z, AI_Z, TABLE_W, TABLE_D,
    TABLE_H, PADDLE_W, PADDLE_D, BALL_R, BALL_LAUNCH_SPEED in *.

Lemma lengthSq_nonneg (v : vec3) : 0 <= V3.lengthSq v.
Proof. unfold V3.lengthSq. nra. Qed.

Lemma length_nonneg (v : vec3) : 0 <= V3.length v.
Proof. apply sqrt_pos. Qed.

Lemma length_sqr (v : vec3) : V3.length v * V3.length v = V3.lengthSq v.
Proof. apply sqrt_sqrt, lengthSq_nonneg. Qed.

Lemma length_multiplyScalar (v : vec3) (k : R) :
  0 <= k -> V3.length (V3.multiplyScalar v k) = k * V3.length v.
Proof.
  intros Hk. unfold V3.length.
  replace (V3.lengthSq (V3.multiplyScalar v k)) with ((k * k) * V3.lengthSq v)
    by (unfold V3.lengthSq, V3.multiplyScalar; simpl; ring).
  rewrite sqrt_mult_alt by nra. now rewrite sqrt_square.
Qed.

Lemma length_lt (v : vec3) (m : R) :
  0 <= m -> (V3.length v < m <-> V3.lengthSq v < m * m).
Proof.
  intros Hm. pose proof (length_nonneg v) as Hl.
  pose proof (length_sqr v) as Hs. split; intros H; nra.
Qed.

Lemma length_zero_z (v : vec3) : V3.length v = 0 -> V3.z v = 0.
Proof.
  intros H. pose proof (length_sqr v) as Hs. rewrite H in Hs.
  unfold V3.lengthSq in Hs. nra.
Qed.

Lemma length_normalize (v : vec3) :
  V3.length v <> 0 -> V3.length (V3.normalize v) = 1.
Proof.
  intros H. unfold V3.normalize, V3.divideScalar.
  destruct (Req_dec_T (V3.length v) 0) as [E | _]; [contradiction |].
  pose proof (length_nonneg v) as Hl.
  rewrite length_multiplyScalar.
  - field. exact H.
  - apply Rlt_le. unfold Rdiv. rewrite Rmult_1_l. apply Rinv_0_lt_compat. lra.
Qed.

Lemma length_axis_z (a b : R) : b = 0 -> V3.length (V3.mk 0 b a) = Rabs a.
Proof.
  intros ->. unfold V3.length, V3.lengthSq. simpl.
  replace (0 * 0 + 0 * 0 + a * a) with (Rsqr a) by (unfold Rsqr; ring).
  apply sqrt_Rsqr_abs.
Qed.

Lemma clampOffset_bounds (m a : R) :
  0 <= m -> - m <= clampOffset m a <= m.
Proof.
  intros Hm. unfold clampOffset, Rmax, Rmin.
  destruct (Rle_dec m a); destruct (Rle_dec _ _); lra.
Qed.

Lemma clampOffset_id (m a : R) : - m <= a <= m -> clampOffset m a = a.
Proof.
  intros H. unfold clampOffset, Rmax, Rmin.
  destruct (Rle_dec m a); destruct (Rle_dec _ _); lra.
Qed.

(** ** Runs *)

Lemma run_app (w : World) (es fs : list Event) :
  run w (es ++ fs) = run (run w es) fs.
Proof. apply fold_left_app. Qed.

Lemma reachable_run (es : list Event) (w : World) :
  reachable w -> Forall admissible es -> reachable (run w es).
Proof.
  revert w. induction es as [| e es IH]; intros w Hw Ha; [exact Hw |].
  inversion Ha; subst. simpl. apply IH; [| assumption].
  now apply reach_step.
Qed.

Lemma opening_admissible : Forall admissible opening.
Proof.
  unfold opening.
  repeat (apply Forall_cons; [simpl; try exact I; lra |]).
  apply Forall_nil.
Qed.

Lemma kickoff_reachable : reachable kickoff.
Proof.
  apply reachable_run; [apply reach_initial | apply opening_admissible].
Qed.

(** ** The height of the ball *)

Lemma wallReflect_y (pv : vec3 * vec3) :
  V3.y (fst (wallReflect pv)) = V3.y (fst pv)
  /\ V3.y (snd (wallReflect pv)) = V3.y (snd pv).
Proof.
  destruct pv as [pos vel]. unfold wallReflect, wallLeft, wallRight.
  destruct (Rltb wallX (V3.x pos)); simpl;
    match goal with |- context [Rltb ?a ?b] => destruct (Rltb a b) end;
    simpl; auto.
Qed.

Lemma hitSpeed_y (d : Difficulty) (k : R) (fh : bool) (v : vec3) :
  V3.y v = 0 -> V3.y (hitSpeed d k fh v) = 0.
Proof.
  intros H. unfold hitSpeed, V3.normalize, V3.divideScalar, V3.multiplyScalar.
  destruct (negb fh); simpl.
  - rewrite H. ring.
  - destruct (Rltb _ _); simpl; rewrite H; ring.
Qed.

Lemma kinematics_y (r : Refs) (delta : R) :
  V3.y (fst (kinematics r delta)) = V3.y (ballRef r)
  /\ V3.y (snd (kinematics r delta)) = V3.y (velRef r).
Proof.
  unfold kinematics.
  exact (wallReflect_y
           (integrate (ballRef r) (velRef r) (Rmin delta 0.05), velRef r)).
Qed.

Lemma afterPlayer_y (d : Difficulty) (r : Refs) (delta : R) :
  V3.y (fst (afterPlayer d r delta)) = V3.y (ballRef r)
  /\ (V3.y (velRef r) = 0 -> V3.y (snd (afterPlayer d r delta)) = 0).
Proof.
  destruct (kinematics_y r delta) as [Hp Hv].
  unfold afterPlayer. destruct (playerHits r delta).
  - destruct (kinematics r delta) as [p v]. simpl in *. split; [exact Hp |].
    intros H0. apply hitSpeed_y. simpl. congruence.
  - split; [exact Hp | congruence].
Qed.

Lemma afterAI_y (d : Difficulty) (r : Refs) (delta : R) :
  V3.y (fst (afterAI d r delta)) = V3.y (ballRef r)
  /\ (V3.y (velRef r) = 0 -> V3.y (snd (afterAI d r delta)) = 0).
Proof.
  destruct (afterPlayer_y d r delta) as [Hp Hv].
  unfold afterAI. destruct (aiHits d r delta).
  - destruct (afterPlayer d r delta) as [p v]. simpl in *.
    split; [exact Hp |].
    intros H0. apply hitSpeed_y. simpl. auto.
  - split; auto.
Qed.

Lemma simulate_y (d : Difficulty) (r : Refs) (delta : R) :
  V3.y (ballRef (fst (simulate d r delta))) = V3.y (ballRef r)
  /\ (V3.y (velRef r) = 0 -> V3.y (velRef (fst (simulate d r delta))) = 0).
Proof. unfold simulate. simpl. apply afterAI_y. Qed.

Lemma handleScore_refs (w : World) (s : Side) : refs (handleScore w s) = refs w.
Proof.
  unfold handleScore.
  destruct (_ <=? _)%nat; [reflexivity |]. destruct (_ <=? _)%nat; reflexivity.
Qed.

Lemma useFrame_refs (w : World) (delta : R) :
  refs (useFrame w delta) = refs w
  \/ refs (useFrame w delta)
     = fst (simulate (props_difficulty (scene w)) (refs w) delta).
Proof.
  unfold useFrame. destruct (_ || _); [now left | right].
  destruct (simulate _ _ _) as [r' [s |]]; simpl.
  - now rewrite handleScore_refs.
  - reflexivity.
Qed.

Lemma click_refs (w : World) (b : Button) : refs (click w b) = refs w.
Proof. unfold click. destruct (props_phase (scene w)), b; reflexivity. Qed.

Lemma step_y (w : World) (e : Event) :
  V3.y (ballRef (refs w)) = BALL_Y -> V3.y (velRef (refs w)) = 0 ->
  V3.y (ballRef (refs (step w e))) = BALL_Y
  /\ V3.y (velRef (refs (step w e))) = 0.
Proof.
  intros Hb Hv. destruct e as [delta | | nx ny | b | d u | u]; simpl.
  - destruct (useFrame_refs w delta) as [-> | ->]; [auto |].
    destruct (simulate_y (props_difficulty (scene w)) (refs w) delta)
      as [H1 H2].
    split; [congruence | auto].
  - auto.
  - auto.
  - rewrite click_refs. auto.
  - destruct (props_phase (scene w)); simpl; auto.
  - destruct (timers w); simpl; auto.
Qed.

Lemma reachable_y (w : World) :
  reachable w ->
  V3.y (ballRef (refs w)) = BALL_Y /\ V3.y (velRef (refs w)) = 0.
Proof.
  induction 1 as [| w e _ [Hb Hv] _].
  - simpl. auto.
  - now apply step_y.
Qed.

(** C8 (amended). In every reachable state the ball rests at the height [doReset]
    gives it, [TABLE_H / 2 + BALL_R + 0.01] (table top, plus radius, plus
    the source's clearance of 0.01), its vertical velocity is zero, and no
    event, a simulation frame included, changes either: only the horizontal
    components of position and velocity move. *)
Theorem height_fixed (w : World) (e : Event) :
  reachable w ->
  V3.y (ballRef (refs w)) = TABLE_H / 2 + BALL_R + 0.01
  /\ V3.y (velRef (refs w)) = 0
  /\ V3.y (ballRef (refs (step w e))) = V3.y (ballRef (refs w))
  /\ V3.y (velRef (refs (step w e))) = V3.y (velRef (refs w)).
Proof.
  intros Hr. destruct (reachable_y w Hr) as [Hb Hv].
  destruct (step_y w e Hb Hv) as [Hb' Hv'].
  repeat split; try congruence. exact Hb.
Qed.

Lemma height_fixed_witness :
  reachable kickoff
  /\ V3.y (ballRef (refs kickoff)) = TABLE_H / 2 + BALL_R + 0.01
  /\ V3.y (ballRef (refs (step kickoff (Frame 0.016))))
     = V3.y (ballRef (refs kickoff)).
Proof.
  split; [exact kickoff_reachable |].
  destruct (height_fixed kickoff (Frame 0.016) kickoff_reachable)
    as (H1 & _ & H3 & _).
  split; [exact H1 | exact H3].
Defined.

(** C8 as stated fails on the constant: the height is not the table's
    height plus the radius, neither with [TABLE_H] (0.30) nor with the
    height of the table top, [TABLE_H / 2] (0.225); at [kickoff], as in
    every reachable state, it is 0.235, a clearance of 0.01 above the
    latter. *)
Lemma height_fixed_counterexample :
  reachable kickoff
  /\ V3.y (ballRef (refs kickoff)) = 0.235
  /\ TABLE_H + BALL_R = 0.3
  /\ TABLE_H / 2 + BALL_R = 0.225
  /\ V3.y (ballRef (refs kickoff)) <> TABLE_H + BALL_R
  /\ V3.y (ballRef (refs kickoff)) <> TABLE_H / 2 + BALL_R.
Proof.
  destruct (reachable_y kickoff kickoff_reachable) as [Hy _].
  split; [exact kickoff_reachable |].
  rewrite Hy. consts.
  split; [lra |]. split; [lra |]. split; [lra |].
  split; intros H; lra.
Qed.

(** ** Side walls *)

Lemma wallX_pos : 0 < wallX.
Proof. consts. lra. Qed.

Lemma wallReflect_cases (pos vel : vec3) :
  (wallX < V3.x pos
   /\ wallReflect (pos, vel)
      = (V3.setX pos wallX, V3.setX vel (- Rabs (V3.x vel))))
  \/ (V3.x pos < - wallX
      /\ wallReflect (pos, vel)
         = (V3.setX pos (- wallX), V3.setX vel (Rabs (V3.x vel))))
  \/ (- wallX <= V3.x pos <= wallX /\ wallReflect (pos, vel) = (pos, vel)).
Proof.
  pose proof wallX_pos as Hw.
  unfold wallReflect, wallRight.
  destruct (Rltb wallX (V3.x pos)) eqn:E1.
  - apply Rltb_true in E1. left. split; [exact E1 |].
    unfold wallLeft. simpl.
    replace (Rltb wallX (- wallX)) with false
      by (symmetry; apply Rltb_false; lra).
    reflexivity.
  - apply Rltb_false in E1. right. unfold wallLeft.
    destruct (Rltb (V3.x pos) (- wallX)) eqn:E2.
    + apply Rltb_true in E2. left. split; [exact E2 | reflexivity].
    + apply Rltb_false in E2. right. split; [lra | reflexivity].
Qed.

(** Neither paddle stage writes [pos.x]. *)
Lemma afterAI_x (d : Difficulty) (r : Refs) (delta : R) :
  V3.x (fst (afterAI d r delta)) = V3.x (fst (kinematics r delta)).
Proof.
  unfold afterAI, afterPlayer.
  destruct (aiHits d r delta); destruct (playerHits r delta);
    destruct (kinematics r delta) as [p v]; reflexivity.
Qed.

Lemma afterAI_no_contact (d : Difficulty) (r : Refs) (delta : R) :
  playerHits r delta = false -> aiHits d r delta = false ->
  afterAI d r delta = kinematics r delta.
Proof. intros Hp Ha. unfold afterAI, afterPlayer. now rewrite Ha, Hp. Qed.

(** After a frame the ball is between the walls, whatever it was before. *)
Lemma simulate_within_walls (d : Difficulty) (r : Refs) (delta : R) :
  - wallX <= V3.x (ballRef (fst (simulate d r delta))) <= wallX.
Proof.
  pose proof wallX_pos as Hw.
  unfold simulate. simpl. rewrite afterAI_x. unfold kinematics.
  destruct (wallReflect_cases
              (integrate (ballRef r) (velRef r) (Rmin delta 0.05)) (velRef r))
    as [[_ ->] | [[_ ->] | [H ->]]]; simpl in *; lra.
Qed.

(** So it is in every reachable state. *)
Lemma reachable_within_walls (w : World) :
  reachable w -> - wallX <= V3.x (ballRef (refs w)) <= wallX.
Proof.
  pose proof wallX_pos as Hw.
  induction 1 as [| w e _ IH _]; [simpl; lra |].
  destruct e as [delta | | nx ny | b | d u | u]; simpl.
  - destruct (useFrame_refs w delta) as [-> | ->];
      [exact IH | apply simulate_within_walls].
  - exact IH.
  - exact IH.
  - now rewrite click_refs.
  - destruct (props_phase (scene w)); simpl; try exact IH; lra.
  - destruct (timers w); simpl; [exact IH | lra].
Qed.

Lemma dt_nonneg (delta : R) : 0 <= delta -> 0 <= Rmin delta 0.05.
Proof. intros H. unfold Rmin. destruct (Rle_dec _ _); lra. Qed.

(** C4 (amended). A ball between the walls whose integrated horizontal
    position passes a wall ends the step exactly on that wall, and the wall
    stage replaces its horizontal velocity by the opposite one, pointing
    inward, the other components untouched.  That reflected velocity is the
    velocity at the end of the step when no paddle is hit in the same step.
    After every step the ball is between the walls. *)
Theorem wall_reflection (d : Difficulty) (r : Refs) (delta : R) :
  - wallX <= V3.x (ballRef r) <= wallX -> 0 <= delta ->
  let moved := integrate (ballRef r) (velRef r) (Rmin delta 0.05) in
  let out := fst (simulate d r delta) in
  let reflected := V3.setX (velRef r) (- V3.x (velRef r)) in
  - wallX <= V3.x (ballRef out) <= wallX
  /\ (wallX < V3.x moved ->
      V3.x (ballRef out) = wallX
      /\ 0 < V3.x (velRef r)
      /\ snd (kinematics r delta) = reflected
      /\ (playerHits r delta = false -> aiHits d r delta = false ->
          velRef out = reflected))
  /\ (V3.x moved < - wallX ->
      V3.x (ballRef out) = - wallX
      /\ V3.x (velRef r) < 0
      /\ snd (kinematics r delta) = reflected
      /\ (playerHits r delta = false -> aiHits d r delta = false ->
          velRef out = reflected)).
Proof.
  intros Hin Hd moved out reflected.
  pose proof wallX_pos as Hw. pose proof (dt_nonneg delta Hd) as Hdt.
  split; [apply simulate_within_walls |].
  assert (Hx : V3.x (ballRef out) = V3.x (fst (kinematics r delta)))
    by (subst out; unfold simulate; simpl; apply afterAI_x).
  assert (Hnc : playerHits r delta = false -> aiHits d r delta = false ->
                velRef out = snd (kinematics r delta)).
  { intros Hp Ha. subst out. unfold simulate. simpl.
    now rewrite afterAI_no_contact. }
  unfold kinematics in *. fold moved in Hx, Hnc |- *.
  destruct (wallReflect_cases moved (velRef r))
    as [[Hc E] | [[Hc E] | [Hc E]]]; rewrite E in *; simpl in *.
  - split; [| intros; lra]. intros _.
    assert (Hv : 0 < V3.x (velRef r)) by (subst moved; simpl in Hc; nra).
    assert (Er : V3.setX (velRef r) (- Rabs (V3.x (velRef r))) = reflected)
      by (subst reflected; now rewrite Rabs_pos_eq by lra).
    rewrite Er in *. auto.
  - split; [intros; lra |]. intros _.
    assert (Hv : V3.x (velRef r) < 0) by (subst moved; simpl in Hc; nra).
    assert (Er : V3.setX (velRef r) (Rabs (V3.x (velRef r))) = reflected)
      by (subst reflected; now rewrite Rabs_left by lra).
    rewrite Er in *. auto.
  - split; intros; lra.
Qed.

(** ** Evaluating a frame at given numbers *)

Ltac Rfact P := assert P by (consts; simpl; lra).

Ltac Rcases :=
  repeat match goal with
  | |- context [Rle_dec ?a ?b] =>
      first [ Rfact (a <= b); destruct (Rle_dec a b); [| exfalso; auto]
            | Rfact (b < a); destruct (Rle_dec a b); [exfalso; lra |] ]
  | |- context [Rlt_dec ?a ?b] =>
      first [ Rfact (a < b); destruct (Rlt_dec a b); [| exfalso; auto]
            | Rfact (b <= a); destruct (Rlt_dec a b); [exfalso; lra |] ]
  | |- context [Rcase_abs ?a] =>
      first [ Rfact (a < 0); destruct (Rcase_abs a); [| exfalso; lra]
            | Rfact (0 <= a); destruct (Rcase_abs a); [exfalso; lra |] ]
  end.

Lemma Rltb_length (v : vec3) (m : R) :
  0 <= m -> Rltb (V3.length v) m = Rltb (V3.lengthSq v) (m * m).
Proof.
  intros Hm. destruct (Rltb (V3.lengthSq v) (m * m)) eqn:E.
  - apply Rltb_true. apply length_lt; [exact Hm |]. now apply Rltb_true.
  - apply Rltb_false. apply Rltb_false in E.
    apply Rnot_lt_le. intros H. apply length_lt in H; lra.
Qed.

(** Unfold one stage, decide its comparisons, compare componentwise. *)
Ltac numbers :=
  simpl;
  rewrite ?Rltb_length by (simpl; lra);
  unfold V3.lengthSq, V3.multiplyScalar, V3.setX, V3.setZ, clampOffset,
    Rltb, Rleb, Rmin, Rmax, Rabs;
  simpl; Rcases; simpl;
  try reflexivity; try (consts; lra);
  repeat (f_equal; try (consts; lra)).

Lemma corner_kinematics :
  kinematics cornerRefs 0.02
  = (V3.mk wallX BALL_Y 4.38, V3.mk (-1) 0 9).
Proof.
  unfold kinematics, wallReflect, wallLeft, wallRight, integrate. numbers.
Qed.

Lemma corner_playerMove : playerMove cornerRefs = 2.4.
Proof. unfold playerMove. numbers. Qed.

Lemma corner_playerHits : playerHits cornerRefs 0.02 = true.
Proof.
  unfold playerHits. rewrite corner_kinematics, corner_playerMove.
  unfold playerContact. numbers.
Qed.

Lemma corner_afterPlayer :
  afterPlayer easy cornerRefs 0.02
  = (V3.mk wallX BALL_Y 4.225, V3.mk 1.3125 0 (-9.45)).
Proof.
  unfold afterPlayer.
  rewrite corner_playerHits, corner_kinematics, corner_playerMove.
  unfold playerHit, playerDeflect, hitSpeed. numbers.
Qed.

Lemma corner_aiHits : aiHits easy cornerRefs 0.02 = false.
Proof.
  unfold aiHits. rewrite corner_afterPlayer. unfold aiContact. numbers.
Qed.

Lemma corner_frame :
  fst (afterAI easy cornerRefs 0.02) = V3.mk wallX BALL_Y 4.225
  /\ snd (afterAI easy cornerRefs 0.02) = V3.mk 1.3125 0 (-9.45).
Proof.
  unfold afterAI. rewrite corner_aiHits, corner_afterPlayer. now split.
Qed.

Lemma wall_kinematics :
  kinematics wallRefs 0.02 = (V3.mk wallX BALL_Y 0.18, V3.mk (-1) 0 9).
Proof.
  unfold kinematics, wallReflect, wallLeft, wallRight, integrate. numbers.
Qed.

Lemma wall_playerHits : playerHits wallRefs 0.02 = false.
Proof.
  unfold playerHits. rewrite wall_kinematics. unfold playerContact. numbers.
Qed.

Lemma wall_aiHits : aiHits easy wallRefs 0.02 = false.
Proof.
  unfold aiHits, afterPlayer. rewrite wall_playerHits, wall_kinematics.
  unfold aiContact. numbers.
Qed.

Lemma wall_reflection_witness :
  (- wallX <= V3.x (ballRef wallRefs) <= wallX)
  /\ 0 <= 0.02
  /\ V3.x (ballRef (fst (simulate easy wallRefs 0.02))) = wallX
  /\ velRef (fst (simulate easy wallRefs 0.02)) = V3.mk (-1) 0 9.
Proof.
  assert (H1 : - wallX <= V3.x (ballRef wallRefs) <= wallX)
    by (consts; simpl; lra).
  assert (H2 : 0 <= 0.02) by lra.
  split; [exact H1 |]. split; [exact H2 |].
  destruct (wall_reflection easy wallRefs 0.02 H1 H2) as (_ & Hr & _).
  destruct Hr as (Hx & _ & _ & Hv).
  - simpl. unfold Rmin. Rcases. consts. lra.
  - split; [exact Hx |].
    rewrite (Hv wall_playerHits wall_aiHits). unfold V3.setX. simpl.
    f_equal.
Defined.

(** C4 as stated fails when a paddle is hit in the step in which the wall
    is: the ball of [cornerRefs] passes the right wall with horizontal
    velocity 1 and is struck by the player's paddle in the same frame; at
    the end of the step its horizontal velocity is 1.3125, neither of
    opposite sign nor of the same magnitude. *)
Lemma wall_reflection_counterexample :
  (- wallX <= V3.x (ballRef cornerRefs) <= wallX)
  /\ wallX < V3.x (integrate (ballRef cornerRefs) (velRef cornerRefs)
                             (Rmin 0.02 0.05))
  /\ V3.x (velRef cornerRefs) = 1
  /\ V3.x (ballRef (fst (simulate easy cornerRefs 0.02))) = wallX
  /\ V3.x (velRef (fst (simulate easy cornerRefs 0.02))) = 1.3125.
Proof.
  destruct corner_frame as [Hp Hv].
  split; [consts; simpl; lra |].
  split; [simpl; unfold Rmin; Rcases; consts; lra |].
  split; [reflexivity |].
  unfold simulate. simpl. rewrite Hp, Hv. now split.
Qed.

(** ** The AI paddle *)

Lemma lerp_range (d : Difficulty) : 0 < lerp (DIFF d) < 1.
Proof. destruct d; simpl; lra. Qed.

Lemma maxAX_pos : 0 < maxAX.
Proof. consts. lra. Qed.

Section Pursuit.

Variables g b : R.
Hypothesis g_range : 0 <= g <= 1.
Hypothesis b_range : - maxAX <= b <= maxAX.

Lemma aiPursuit_below (a : R) :
  a <= b -> a <= aiPursuit g b a <= b /\ b - aiPursuit g b a <= (1 - g) * (b - a).
Proof.
  intros Hab. pose proof maxAX_pos as Hm.
  unfold aiPursuit, clampOffset, Rmax, Rmin.
  destruct (Rle_dec maxAX _); destruct (Rle_dec _ _); split; nra.
Qed.

Lemma aiPursuit_above (a : R) :
  b <= a -> b <= aiPursuit g b a <= a /\ aiPursuit g b a - b <= (1 - g) * (a - b).
Proof.
  intros Hab. pose proof maxAX_pos as Hm.
  unfold aiPursuit, clampOffset, Rmax, Rmin.
  destruct (Rle_dec maxAX _); destruct (Rle_dec _ _); split; nra.
Qed.

Lemma aiPursuit_contracts (a : R) :
  Rabs (b - aiPursuit g b a) <= (1 - g) * Rabs (b - a).
Proof.
  destruct (Rle_dec a b) as [Hab | Hab].
  - destruct (aiPursuit_below a Hab) as [H1 H2].
    rewrite !Rabs_pos_eq by lra. exact H2.
  - assert (Hba : b <= a) by lra.
    destruct (aiPursuit_above a Hba) as [H1 H2].
    rewrite !Rabs_left1 by lra. lra.
Qed.

Lemma aiPursuit_iter (a : R) (n : nat) :
  Rabs (b - Nat.iter n (aiPursuit g b) a) <= (1 - g) ^ n * Rabs (b - a).
Proof.
  induction n as [| n IH]; simpl.
  - lra.
  - eapply Rle_trans; [apply aiPursuit_contracts |].
    rewrite Rmult_assoc. apply Rmult_le_compat_l; [lra | exact IH].
Qed.

End Pursuit.

(** C6. With the ball's horizontal position [b] fixed inside the paddle's
    range, every application of the pursuit update of any difficulty tier
    leaves the AI offset on the side of [b] it was on, no farther from [b]
    than before; after [n] applications the distance is at most
    [(1 - lerp) ^ n] times the first one. *)
Theorem pursuit_converges (d : Difficulty) (b a : R) (n : nat) :
  - maxAX <= b <= maxAX ->
  let g := lerp (DIFF d) in
  let a_n := Nat.iter n (aiPursuit g b) a in
  let a_next := aiPursuit g b a_n in
  Rabs (b - a_next) <= Rabs (b - a_n)
  /\ (a_n <= b -> a_n <= a_next <= b)
  /\ (b <= a_n -> b <= a_next <= a_n)
  /\ Rabs (b - a_n) <= (1 - g) ^ n * Rabs (b - a).
Proof.
  intros Hb g a_n a_next.
  assert (Hg : 0 <= g <= 1) by (pose proof (lerp_range d); subst g; lra).
  repeat split.
  - pose proof (aiPursuit_contracts g b Hg Hb a_n) as H.
    pose proof (Rabs_pos (b - a_n)). subst a_next. nra.
  - now apply aiPursuit_below.
  - now apply aiPursuit_below.
  - now apply aiPursuit_above.
  - now apply aiPursuit_above.
  - apply aiPursuit_iter; assumption.
Qed.

Lemma pursuit_converges_witness :
  (- maxAX <= 1 <= maxAX)
  /\ Rabs (1 - Nat.iter 2 (aiPursuit (lerp (DIFF easy)) 1) 0)
     <= (1 - lerp (DIFF easy)) ^ 2 * Rabs (1 - 0).
Proof.
  assert (H : - maxAX <= 1 <= maxAX) by (consts; lra).
  split; [exact H |].
  exact (proj2 (proj2 (proj2 (pursuit_converges easy 1 0 2 H)))).
Defined.

(** ** Ball reset *)

Lemma launchAngle_range (u : R) :
  0 <= u < 1 -> -0.25 <= launchAngle u < 0.25.
Proof. unfold launchAngle. lra. Qed.

Lemma launchAngle_cos (u : R) : 0 <= u < 1 -> 0 < cos (launchAngle u).
Proof.
  intros Hu. pose proof (launchAngle_range u Hu) as Ha.
  pose proof PI2_1 as Hpi. apply cos_gt_0; lra.
Qed.

Lemma launch_lengthSq (a s : R) (tp : bool) :
  V3.lengthSq (V3.mk (sin a * s) 0 ((if tp then 1 else -1) * cos a * s))
  = s * s.
Proof.
  pose proof (sin2_cos2 a) as H. unfold Rsqr in H.
  unfold V3.lengthSq. simpl. destruct tp; nra.
Qed.

Lemma doReset_speed (r : Refs) (u : R) (diff : Difficulty) (tp : bool) :
  V3.length (velRef (doReset r u diff tp)) = BALL_LAUNCH_SPEED.
Proof.
  unfold doReset, V3.length. simpl. rewrite launch_lengthSq.
  apply sqrt_square. consts. lra.
Qed.

Lemma handleScore_between (w : World) (scorer : Side) :
  phase (game (handleScore w scorer)) = BetweenPoints ->
  timers (handleScore w scorer)
  = timers w ++ [{| timer_diff := props_difficulty (scene w);
                    timer_towardPlayer := isAI scorer |}].
Proof.
  unfold handleScore.
  destruct (_ <=? _)%nat; [discriminate |].
  destruct (_ <=? _)%nat; [discriminate |]. reflexivity.
Qed.

(** ** Paddle contact *)

Lemma andb4 (a b c d : bool) :
  a && b && c && d = true -> a = true /\ b = true /\ c = true /\ d = true.
Proof. destruct a, b, c, d; simpl; intuition discriminate. Qed.

Lemma playerContact_vz (pos vel : vec3) (px : R) :
  playerContact pos vel px = true -> 0 < V3.z vel.
Proof.
  unfold playerContact. intros H. apply andb4 in H.
  now apply Rltb_true.
Qed.

Lemma aiContact_vz (pos vel : vec3) (ax : R) :
  aiContact pos vel ax = true -> V3.z vel < 0.
Proof.
  unfold aiContact. intros H. apply andb4 in H.
  now apply Rltb_true.
Qed.

Lemma length_ge_z (v : vec3) : Rabs (V3.z v) <= V3.length v.
Proof.
  pose proof (length_nonneg v) as Hl. pose proof (length_sqr v) as Hs.
  unfold V3.lengthSq in Hs.
  apply Rabs_le. split; nra.
Qed.

Lemma playerDeflect_length (pos vel : vec3) (px : R) :
  0 < V3.z vel -> 0 < V3.length (playerDeflect pos vel px).
Proof.
  intros Hz. pose proof (length_ge_z (playerDeflect pos vel px)) as H.
  simpl in H. rewrite Rabs_Ropp, Rabs_Rabsolu, Rabs_pos_eq in H by lra. lra.
Qed.

Lemma aiDeflect_length (pos vel : vec3) (ax : R) :
  V3.z vel < 0 -> 0 < V3.length (aiDeflect pos vel ax).
Proof.
  intros Hz. pose proof (length_ge_z (aiDeflect pos vel ax)) as H.
  simpl in H. rewrite Rabs_Rabsolu, Rabs_left in H by lra. lra.
Qed.

(** The player's paddle leaves the ball far from the AI's: the two contacts
    exclude each other within a frame. *)
Lemma contacts_exclusive (d : Difficulty) (r : Refs) (delta : R) :
  playerHits r delta = true -> aiHits d r delta = false.
Proof.
  intros Hp. unfold aiHits, afterPlayer. rewrite Hp.
  destruct (kinematics r delta) as [pos vel]. unfold playerHit. simpl.
  unfold aiContact. simpl.
  replace (Rleb (PLAYER_Z - PADDLE_D / 2 - BALL_R)
                (AI_Z + PADDLE_D / 2 + BALL_R)) with false
    by (symmetry; apply Rleb_false; consts; lra).
  now rewrite andb_false_r.
Qed.

Lemma simulate_velRef (d : Difficulty) (r : Refs) (delta : R) :
  velRef (fst (simulate d r delta)) = snd (afterAI d r delta).
Proof. reflexivity. Qed.

Lemma afterAI_player (d : Difficulty) (r : Refs) (delta : R) :
  playerHits r delta = true ->
  snd (afterAI d r delta)
  = hitSpeed d 1.05 (firstHitRef r)
      (playerDeflect (fst (kinematics r delta)) (snd (kinematics r delta))
                     (playerMove r)).
Proof.
  intros Hp. unfold afterAI. rewrite (contacts_exclusive d r delta Hp).
  unfold afterPlayer. rewrite Hp.
  destruct (kinematics r delta) as [pos vel]. reflexivity.
Qed.

Lemma afterAI_ai (d : Difficulty) (r : Refs) (delta : R) :
  aiHits d r delta = true ->
  playerHits r delta = false
  /\ snd (afterAI d r delta)
     = hitSpeed d 1.03 (firstHitRef r)
         (aiDeflect (fst (afterPlayer d r delta)) (snd (afterPlayer d r delta))
                    (aiMove d r delta)).
Proof.
  intros Ha.
  assert (Hp : playerHits r delta = false).
  { destruct (playerHits r delta) eqn:E; [| reflexivity].
    rewrite (contacts_exclusive d r delta E) in Ha. discriminate. }
  split; [exact Hp |].
  unfold afterAI. rewrite Ha, Hp, orb_false_r.
  destruct (afterPlayer d r delta) as [pos vel]. reflexivity.
Qed.

Lemma speedInit_pos (d : Difficulty) : 0 < speedInit (DIFF d).
Proof. destruct d; simpl; lra. Qed.

Lemma speedMax_pos (d : Difficulty) : 0 < speedMax (DIFF d).
Proof. destruct d; simpl; lra. Qed.

Lemma hitSpeed_first (d : Difficulty) (k : R) (v : vec3) :
  0 < V3.length v ->
  V3.normalize v = V3.divideScalar v (V3.length v)
  /\ hitSpeed d k false v
     = V3.multiplyScalar v (speedInit (DIFF d) / V3.length v)
  /\ V3.length (hitSpeed d k false v) = speedInit (DIFF d).
Proof.
  intros Hl. pose proof (speedInit_pos d) as Hs.
  assert (Hn : V3.normalize v = V3.divideScalar v (V3.length v)).
  { unfold V3.normalize. destruct (Req_dec_T _ _); [lra | reflexivity]. }
  split; [exact Hn |]. split.
  - unfold hitSpeed. simpl. rewrite Hn.
    unfold V3.divideScalar, V3.multiplyScalar. simpl.
    f_equal; field; lra.
  - unfold hitSpeed. simpl.
    rewrite length_multiplyScalar by lra.
    rewrite length_normalize by lra. ring.
Qed.

(** C9. Whenever a paddle is hit, the velocity handed to the speed branch,
    where alone [normalize] is called, has a positive length, because the
    contact test has checked the sign of its depth component; so
    [normalize] divides by that length and never takes its fallback for a
    zero vector.  The velocity [doReset] launches has a positive length
    too. *)
Theorem normalize_nonzero (d : Difficulty) (r : Refs) (delta : R) :
  let k := kinematics r delta in
  let p := afterPlayer d r delta in
  (playerHits r delta = true ->
   let v := playerDeflect (fst k) (snd k) (playerMove r) in
   snd p = hitSpeed d 1.05 (firstHitRef r) v
   /\ 0 < V3.length v
   /\ V3.normalize v = V3.divideScalar v (V3.length v))
  /\ (aiHits d r delta = true ->
      let v := aiDeflect (fst p) (snd p) (aiMove d r delta) in
      snd (afterAI d r delta)
      = hitSpeed d 1.03 (firstHitRef r || playerHits r delta) v
      /\ 0 < V3.length v
      /\ V3.normalize v = V3.divideScalar v (V3.length v))
  /\ (forall u diff towardPlayer,
      0 < V3.length (velRef (doReset r u diff towardPlayer))).
Proof.
  intros k p. repeat split.
  - subst p k. unfold afterPlayer. rewrite H.
    destruct (kinematics r delta) as [pos vel]. reflexivity.
  - apply playerDeflect_length. eapply playerContact_vz. exact H.
  - apply (hitSpeed_first d 1.05).
    apply playerDeflect_length. eapply playerContact_vz. exact H.
  - unfold afterAI. rewrite H. subst p.
    destruct (afterPlayer d r delta) as [pos vel]. reflexivity.
  - apply aiDeflect_length. eapply aiContact_vz. exact H.
  - apply (hitSpeed_first d 1.03).
    apply aiDeflect_length. eapply aiContact_vz. exact H.
  - intros u diff tp. rewrite doReset_speed. consts. lra.
Qed.

Lemma serve_kinematics :
  kinematics serveRefs 0.016 = (V3.mk 0 BALL_Y 4.256, V3.mk 0 0 3.5).
Proof.
  unfold kinematics, wallReflect, wallLeft, wallRight, integrate. numbers.
Qed.

Lemma serve_playerHits : playerHits serveRefs 0.016 = true.
Proof.
  unfold playerHits, playerMove. rewrite serve_kinematics.
  unfold playerContact. numbers.
Qed.

Lemma normalize_nonzero_witness :
  playerHits serveRefs 0.016 = true
  /\ 0 < V3.length
          (playerDeflect (fst (kinematics serveRefs 0.016))
                         (snd (kinematics serveRefs 0.016))
                         (playerMove serveRefs)).
Proof.
  split; [exact serve_playerHits |].
  destruct (normalize_nonzero easy serveRefs 0.016) as (Hp & _ & _).
  destruct (Hp serve_playerHits) as (_ & Hl & _). exact Hl.
Defined.

(** C3. When the first paddle contact of a point happens in a frame, by
    either paddle, the velocity the frame leaves is the velocity after depth
    inversion and deflection multiplied by a positive number (same
    direction), its length is the tier's [speedInit], and the first-hit flag
    is set. *)
Theorem first_contact_speed (d : Difficulty) (r : Refs) (delta : R) :
  firstHitRef r = false ->
  let k := kinematics r delta in
  let p := afterPlayer d r delta in
  let out := fst (simulate d r delta) in
  (playerHits r delta = true ->
   let v := playerDeflect (fst k) (snd k) (playerMove r) in
   0 < speedInit (DIFF d) / V3.length v
   /\ velRef out = V3.multiplyScalar v (speedInit (DIFF d) / V3.length v)
   /\ V3.length (velRef out) = speedInit (DIFF d)
   /\ firstHitRef out = true)
  /\ (aiHits d r delta = true ->
      let v := aiDeflect (fst p) (snd p) (aiMove d r delta) in
      0 < speedInit (DIFF d) / V3.length v
      /\ velRef out = V3.multiplyScalar v (speedInit (DIFF d) / V3.length v)
      /\ V3.length (velRef out) = speedInit (DIFF d)
      /\ firstHitRef out = true).
Proof.
  intros Hf k p out. pose proof (speedInit_pos d) as Hs. split.
  - intros Hp v.
    assert (Hl : 0 < V3.length v)
      by (apply playerDeflect_length; eapply playerContact_vz; exact Hp).
    destruct (hitSpeed_first d 1.05 v Hl) as (_ & Hv & Hn).
    assert (Ho : velRef out = hitSpeed d 1.05 false v).
    { subst out. rewrite simulate_velRef, (afterAI_player d r delta Hp), Hf.
      reflexivity. }
    rewrite Ho. repeat split; try assumption.
    + apply Rdiv_lt_0_compat; assumption.
    + subst out. simpl. rewrite Hp. now rewrite orb_true_r.
  - intros Ha v.
    assert (Hl : 0 < V3.length v)
      by (apply aiDeflect_length; eapply aiContact_vz; exact Ha).
    destruct (hitSpeed_first d 1.03 v Hl) as (_ & Hv & Hn).
    destruct (afterAI_ai d r delta Ha) as [Hp Hai].
    assert (Ho : velRef out = hitSpeed d 1.03 false v).
    { subst out. rewrite simulate_velRef, Hai, Hf. reflexivity. }
    rewrite Ho. repeat split; try assumption.
    + apply Rdiv_lt_0_compat; assumption.
    + subst out. simpl. rewrite Ha. now rewrite orb_true_r.
Qed.

Lemma first_contact_speed_witness :
  firstHitRef serveRefs = false
  /\ playerHits serveRefs 0.016 = true
  /\ V3.length (velRef (fst (simulate easy serveRefs 0.016))) = 8.
Proof.
  split; [reflexivity |]. split; [exact serve_playerHits |].
  destruct (first_contact_speed easy serveRefs 0.016 eq_refl) as [Hp _].
  destruct (Hp serve_playerHits) as (_ & _ & Hl & _). exact Hl.
Defined.

(** ** Speed growth in a rally *)

Lemma hitSpeed_later (d : Difficulty) (k : R) (v : vec3) :
  0 <= k ->
  (V3.length v < speedMax (DIFF d) ->
   hitSpeed d k true v = V3.multiplyScalar v k
   /\ V3.length (hitSpeed d k true v) = k * V3.length v)
  /\ (speedMax (DIFF d) <= V3.length v -> hitSpeed d k true v = v).
Proof.
  intros Hk. unfold hitSpeed. simpl. split; intros H.
  - replace (Rltb _ _) with true by (symmetry; now apply Rltb_true).
    split; [reflexivity | now apply length_multiplyScalar].
  - replace (Rltb _ _) with false by (symmetry; now apply Rltb_false).
    reflexivity.
Qed.

(** C1 (amended). At a paddle contact that is not the first of the point,
    the speed after depth inversion and deflection is multiplied by the
    growth factor (1.05 at the player's paddle, 1.03 at the AI's) when it is
    strictly below the tier's [speedMax], and left as it is otherwise.  A
    growth step ends strictly below the growth factor times [speedMax];
    nothing brings the speed back to [speedMax]. *)
Theorem rally_speed_growth (d : Difficulty) (r : Refs) (delta : R) :
  firstHitRef r = true ->
  let k := kinematics r delta in
  let p := afterPlayer d r delta in
  let out := fst (simulate d r delta) in
  (playerHits r delta = true ->
   let v := playerDeflect (fst k) (snd k) (playerMove r) in
   (V3.length v < speedMax (DIFF d) ->
    velRef out = V3.multiplyScalar v 1.05
    /\ V3.length (velRef out) = 1.05 * V3.length v
    /\ V3.length (velRef out) < 1.05 * speedMax (DIFF d))
   /\ (speedMax (DIFF d) <= V3.length v -> velRef out = v))
  /\ (aiHits d r delta = true ->
      let v := aiDeflect (fst p) (snd p) (aiMove d r delta) in
      (V3.length v < speedMax (DIFF d) ->
       velRef out = V3.multiplyScalar v 1.03
       /\ V3.length (velRef out) = 1.03 * V3.length v
       /\ V3.length (velRef out) < 1.03 * speedMax (DIFF d))
      /\ (speedMax (DIFF d) <= V3.length v -> velRef out = v)).
Proof.
  intros Hf k p out. split.
  - intros Hp v.
    assert (Ho : velRef out = hitSpeed d 1.05 true v).
    { subst out. rewrite simulate_velRef, (afterAI_player d r delta Hp), Hf.
      reflexivity. }
    assert (Hk : 0 <= 1.05) by lra.
    destruct (hitSpeed_later d 1.05 v Hk) as [Hlt Hge]. rewrite Ho. split.
    + intros H. destruct (Hlt H) as [E1 E2]. rewrite E2. repeat split; auto.
      lra.
    + exact Hge.
  - intros Ha v.
    destruct (afterAI_ai d r delta Ha) as [Hp Hai].
    assert (Ho : velRef out = hitSpeed d 1.03 true v).
    { subst out. rewrite simulate_velRef, Hai, Hf. reflexivity. }
    assert (Hk : 0 <= 1.03) by lra.
    destruct (hitSpeed_later d 1.03 v Hk) as [Hlt Hge]. rewrite Ho. split.
    + intros H. destruct (Hlt H) as [E1 E2]. rewrite E2. repeat split; auto.
      lra.
    + exact Hge.
Qed.

Lemma rally_kinematics :
  kinematics rallyRefs 0.02 = (V3.mk 0 BALL_Y 4.358, V3.mk 0 0 17.9).
Proof.
  unfold kinematics, wallReflect, wallLeft, wallRight, integrate. numbers.
Qed.

Lemma rally_playerMove : playerMove rallyRefs = 0.
Proof. unfold playerMove. numbers. Qed.

Lemma rally_playerHits : playerHits rallyRefs 0.02 = true.
Proof.
  unfold playerHits. rewrite rally_kinematics, rally_playerMove.
  unfold playerContact. numbers.
Qed.

Lemma rally_deflect :
  playerDeflect (fst (kinematics rallyRefs 0.02))
                (snd (kinematics rallyRefs 0.02)) (playerMove rallyRefs)
  = V3.mk 0 0 (- 17.9).
Proof.
  rewrite rally_kinematics, rally_playerMove. unfold playerDeflect. numbers.
Qed.

Lemma rally_speed_growth_witness :
  firstHitRef rallyRefs = true
  /\ playerHits rallyRefs 0.02 = true
  /\ V3.length (velRef (fst (simulate easy rallyRefs 0.02)))
     < 1.05 * speedMax (DIFF easy).
Proof.
  split; [reflexivity |]. split; [exact rally_playerHits |].
  destruct (rally_speed_growth easy rallyRefs 0.02 eq_refl) as [Hp _].
  destruct (Hp rally_playerHits) as [Hlt _].
  apply Hlt. rewrite rally_deflect, length_axis_z by reflexivity.
  unfold Rabs. Rcases. simpl. lra.
Defined.

(** One frame at [rallyRefs]: a ball at 17.9, below the easy tier's
    [speedMax] of 18 and past the first hit of its point, meets the centre
    of the player's paddle and leaves at 18.795. *)
Lemma rallyRefs_frame :
  firstHitRef rallyRefs = true
  /\ V3.length (velRef rallyRefs) = 17.9
  /\ speedMax (DIFF easy) = 18
  /\ playerHits rallyRefs 0.02 = true
  /\ velRef (fst (simulate easy rallyRefs 0.02)) = V3.mk 0 0 (- 18.795)
  /\ V3.length (velRef (fst (simulate easy rallyRefs 0.02))) = 18.795.
Proof.
  assert (Hv : velRef (fst (simulate easy rallyRefs 0.02))
               = V3.mk 0 0 (- 18.795)).
  { rewrite simulate_velRef, (afterAI_player easy _ _ rally_playerHits).
    rewrite rally_deflect.
    assert (Hk : 0 <= 1.05) by lra.
    destruct (hitSpeed_later easy 1.05 (V3.mk 0 0 (- 17.9)) Hk) as [Hlt _].
    destruct Hlt as [E _].
    - rewrite length_axis_z by reflexivity.
      unfold Rabs. Rcases. simpl. lra.
    - simpl firstHitRef. rewrite E. unfold V3.multiplyScalar. simpl.
      f_equal; lra. }
  split; [reflexivity |]. split.
  - unfold rallyRefs. simpl. rewrite length_axis_z by reflexivity.
    apply Rabs_pos_eq. lra.
  - split; [reflexivity |]. split; [exact rally_playerHits |].
    split; [exact Hv |]. rewrite Hv, length_axis_z by reflexivity.
    unfold Rabs. Rcases. lra.
Qed.

(** ** Scoring *)

Lemma handleScore_game (w : World) (scorer : Side) :
  let next := nextScores (scores (game w)) scorer in
  scores (game (handleScore w scorer)) = next
  /\ (7 <= player next ->
      phase (game (handleScore w scorer)) = Won
      /\ winner (game (handleScore w scorer)) = Some Player)%nat
  /\ (player next <= 6 -> 7 <= ai next ->
      phase (game (handleScore w scorer)) = Won
      /\ winner (game (handleScore w scorer)) = Some AI)%nat
  /\ (player next <= 6 -> ai next <= 6 ->
      phase (game (handleScore w scorer)) = BetweenPoints
      /\ winner (game (handleScore w scorer)) = winner (game w))%nat.
Proof.
  intros next. unfold handleScore. fold next. unfold WIN_SCORE.
  destruct (7 <=? player next)%nat eqn:E1;
    [apply Nat.leb_le in E1 | apply Nat.leb_gt in E1];
    [| destruct (7 <=? ai next)%nat eqn:E2;
       [apply Nat.leb_le in E2 | apply Nat.leb_gt in E2]];
    simpl; repeat split; intros; try reflexivity;
    exfalso; subst next; simpl in *; lia.
Qed.

Lemma useFrame_signal (w : World) (delta : R) (scorer : Side) :
  frameSignal w delta = Some scorer ->
  props_phase (scene w) = Playing
  /\ scoredRef (scene w) = false
  /\ useFrame w delta
     = handleScore
         (with_scored true
            (with_refs
               (fst (simulate (props_difficulty (scene w)) (refs w) delta)) w))
         scorer.
Proof.
  unfold frameSignal, useFrame.
  destruct (Phase_eqb (props_phase (scene w)) Playing) eqn:Ep;
    [| discriminate].
  destruct (scoredRef (scene w)); [discriminate |]. cbn [negb orb].
  intros H. apply Phase_eqb_eq in Ep.
  destruct (simulate (props_difficulty (scene w)) (refs w) delta)
    as [r' sig].
  cbn [fst snd] in *. subst sig. auto.
Qed.

(** C5. A frame that signals a score adds one to the scorer's counter and
    leaves the other.  If a counter is then 7 the phase becomes Won, and,
    both counters having been below 7 as they are while a match is played,
    the side recorded as winner is the scorer, whose counter is the one at
    7.  With both counters at 6 or below the phase becomes BetweenPoints,
    not Won. *)
Theorem win_detection (w : World) (delta : R) (scorer : Side) :
  frameSignal w delta = Some scorer ->
  let prev := scores (game w) in
  let g' := game (useFrame w delta) in
  (player (scores g')
   = match scorer with Player => player prev + 1 | AI => player prev end
   /\ ai (scores g')
      = match scorer with AI => ai prev + 1 | Player => ai prev end
   /\ (player (scores g') = 7 \/ ai (scores g') = 7 -> phase g' = Won)
   /\ (player prev < 7 -> ai prev < 7 -> player (scores g') = 7 ->
       phase g' = Won /\ winner g' = Some Player /\ scorer = Player)
   /\ (player prev < 7 -> ai prev < 7 -> ai (scores g') = 7 ->
       phase g' = Won /\ winner g' = Some AI /\ scorer = AI)
   /\ (player (scores g') <= 6 -> ai (scores g') <= 6 ->
       phase g' = BetweenPoints /\ phase g' <> Won))%nat.
Proof.
  intros Hs prev g'.
  destruct (useFrame_signal w delta scorer Hs) as (_ & _ & E).
  subst g'. rewrite E.
  set (w1 := with_scored true _).
  assert (Hg : scores (game w1) = prev) by reflexivity.
  destruct (handleScore_game w1 scorer) as (Hn & Hp & Ha & Hb).
  rewrite Hg in *. rewrite Hn in *.
  unfold nextScores in *. simpl in *.
  repeat split; intros.
  - destruct (le_lt_dec 7 (match scorer with
                           | Player => player prev + 1
                           | AI => player prev end)) as [L | L].
    + now apply Hp.
    + apply Ha; destruct scorer; lia.
  - apply Hp; lia.
  - apply Hp; lia.
  - destruct scorer; [reflexivity | lia].
  - apply Ha; destruct scorer; lia.
  - apply Ha; destruct scorer; lia.
  - destruct scorer; [lia | reflexivity].
  - apply Hb; lia.
  - destruct Hb as [Hb _]; [lia | lia |]. rewrite Hb. discriminate.
Qed.

Lemma simulate_free (d : Difficulty) (r : Refs) (delta : R) :
  playerHits r delta = false -> aiHits d r delta = false ->
  snd (simulate d r delta) = scoreTest (fst (kinematics r delta))
  /\ ballRef (fst (simulate d r delta)) = fst (kinematics r delta)
  /\ velRef (fst (simulate d r delta)) = snd (kinematics r delta).
Proof.
  intros Hp Ha. unfold simulate. simpl.
  now rewrite (afterAI_no_contact d r delta Hp Ha).
Qed.

Lemma matchPoint_kinematics :
  kinematics (refs matchPoint) 0.02 = (V3.mk 2 BALL_Y 5.56, V3.mk 0 0 8).
Proof.
  unfold kinematics, wallReflect, wallLeft, wallRight, integrate. numbers.
Qed.

Lemma matchPoint_playerHits : playerHits (refs matchPoint) 0.02 = false.
Proof.
  unfold playerHits. rewrite matchPoint_kinematics.
  unfold playerContact. numbers.
Qed.

Lemma matchPoint_aiHits : aiHits easy (refs matchPoint) 0.02 = false.
Proof.
  unfold aiHits, afterPlayer.
  rewrite matchPoint_playerHits, matchPoint_kinematics.
  unfold aiContact. numbers.
Qed.

Lemma matchPoint_signal : frameSignal matchPoint 0.02 = Some AI.
Proof.
  unfold frameSignal. simpl negb. cbn [orb].
  change (props_difficulty (scene matchPoint)) with easy.
  destruct (simulate_free easy (refs matchPoint) 0.02
              matchPoint_playerHits matchPoint_aiHits) as (-> & _).
  rewrite matchPoint_kinematics. unfold scoreTest. numbers.
Qed.

Lemma win_detection_witness :
  frameSignal matchPoint 0.02 = Some AI
  /\ ai (scores (game (useFrame matchPoint 0.02))) = 7%nat
  /\ phase (game (useFrame matchPoint 0.02)) = Won
  /\ winner (game (useFrame matchPoint 0.02)) = Some AI.
Proof.
  split; [exact matchPoint_signal |].
  destruct (win_detection matchPoint 0.02 AI matchPoint_signal)
    as (_ & Ha & _ & _ & Hw & _).
  split; [exact Ha |].
  assert (H2 : (player (scores (game matchPoint)) < 7)%nat) by (simpl; lia).
  assert (H6 : (ai (scores (game matchPoint)) < 7)%nat) by (simpl; lia).
  destruct (Hw H2 H6 Ha) as (Hp & Hwin & _).
  split; [exact Hp | exact Hwin].
Defined.

(** ** One score per point *)

Lemma handleScore_scene (w : World) (s : Side) :
  scene (handleScore w s) = scene w.
Proof.
  unfold handleScore.
  destruct (_ <=? _)%nat; [reflexivity |]. destruct (_ <=? _)%nat; reflexivity.
Qed.

Lemma handleScore_phase (w : World) (s : Side) :
  phase (game (handleScore w s)) = Won
  \/ phase (game (handleScore w s)) = BetweenPoints.
Proof.
  unfold handleScore.
  destruct (_ <=? _)%nat; [now left |].
  destruct (_ <=? _)%nat; [now left | now right].
Qed.

Lemma useFrame_scored (w : World) (delta : R) :
  scoredRef (scene w) = true ->
  useFrame w delta = w /\ frameSignal w delta = None.
Proof.
  intros H. unfold useFrame, frameSignal. rewrite H, orb_true_r. now split.
Qed.

Lemma click_scene (w : World) (b : Button) : scene (click w b) = scene w.
Proof. unfold click. destruct (props_phase (scene w)), b; reflexivity. Qed.

Lemma step_keeps_scored (w : World) (e : Event) :
  scoredRef (scene w) = true -> reenters w e = false ->
  scoredRef (scene (step w e)) = true.
Proof.
  intros Hs Hq. destruct e as [delta | | nx ny | b | d u | u]; simpl.
  - now rewrite (proj1 (useFrame_scored w delta Hs)).
  - simpl in Hq. rewrite Hq. exact Hs.
  - exact Hs.
  - now rewrite click_scene.
  - destruct (props_phase (scene w)); exact Hs.
  - destruct (timers w); exact Hs.
Qed.

Lemma quiet_run (es : list Event) (w : World) :
  scoredRef (scene w) = true -> quiet w es ->
  signals w es = [] /\ framesIdle w es
  /\ scoredRef (scene (run w es)) = true.
Proof.
  revert w. induction es as [| e es IH]; intros w Hs Hq.
  - simpl. auto.
  - destruct Hq as [Hq1 Hq2].
    pose proof (step_keeps_scored w e Hs Hq1) as Hs'.
    destruct (IH (step w e) Hs' Hq2) as (I1 & I2 & I3).
    assert (Hsig : signals w (e :: es) = []).
    { destruct e; simpl; try exact I1.
      rewrite (proj2 (useFrame_scored w delta Hs)). exact I1. }
    split; [exact Hsig |]. split; [| exact I3].
    split; [| exact I2].
    destruct e; auto. apply useFrame_scored, Hs.
Qed.

(** C10. A frame that signals a score sets [scoredRef] and takes the phase
    out of Playing.  From then on, as long as no render shows [GameScene] a
    change of phase to Playing, every frame is a no-op on the whole state
    (ball, velocity, paddle offsets and scores included) and no further
    score is signalled. *)
Theorem one_score_per_point (w : World) (delta : R) (scorer : Side)
  (es : list Event) :
  frameSignal w delta = Some scorer ->
  let w' := useFrame w delta in
  quiet w' es ->
  scoredRef (scene w') = true
  /\ phase (game w') <> Playing
  /\ signals w' es = []
  /\ framesIdle w' es
  /\ scoredRef (scene (run w' es)) = true.
Proof.
  intros Hsig w' Hq.
  destruct (useFrame_signal w delta scorer Hsig) as (_ & _ & E).
  assert (Hs : scoredRef (scene w') = true)
    by (subst w'; rewrite E, handleScore_scene; reflexivity).
  split; [exact Hs |]. split.
  - subst w'. rewrite E.
    destruct (handleScore_phase
                (with_scored true
                   (with_refs
                      (fst (simulate (props_difficulty (scene w)) (refs w)
                              delta)) w)) scorer) as [-> | ->];
      discriminate.
  - now apply quiet_run.
Qed.

Lemma matchPoint_after :
  scoredRef (scene (useFrame matchPoint 0.02)) = true
  /\ phase (game (useFrame matchPoint 0.02)) = Won.
Proof.
  destruct (useFrame_signal matchPoint 0.02 AI matchPoint_signal)
    as (_ & _ & E).
  rewrite E. split; [now rewrite handleScore_scene |].
  apply handleScore_game; simpl; lia.
Qed.

Lemma one_score_per_point_witness :
  frameSignal matchPoint 0.02 = Some AI
  /\ quiet (useFrame matchPoint 0.02)
           [Frame 0.016; Render; Frame 0.016; Pointer 0.3 0; Frame 0.05]
  /\ signals (useFrame matchPoint 0.02)
        [Frame 0.016; Render; Frame 0.016; Pointer 0.3 0; Frame 0.05] = []
  /\ framesIdle (useFrame matchPoint 0.02)
        [Frame 0.016; Render; Frame 0.016; Pointer 0.3 0; Frame 0.05].
Proof.
  split; [exact matchPoint_signal |].
  assert (Hq : quiet (useFrame matchPoint 0.02)
                 [Frame 0.016; Render; Frame 0.016; Pointer 0.3 0;
                  Frame 0.05]).
  { destruct matchPoint_after as [Hsc Hph].
    set (w' := useFrame matchPoint 0.02) in *.
    cbn [quiet step reenters].
    rewrite (proj1 (useFrame_scored w' 0.016 Hsc)), Hph.
    cbn [Phase_eqb]. rewrite andb_false_r. repeat split. }
  split; [exact Hq |].
  destruct (one_score_per_point matchPoint 0.02 AI _ matchPoint_signal Hq)
    as (_ & _ & H3 & H4 & _).
  split; [exact H3 | exact H4].
Defined.

(** ** The deferred reset *)

Lemma flying_ext (px px' z z' : R) :
  px = px' -> z = z' -> flying px z = flying px' z'.
Proof. now intros -> ->. Qed.

Lemma kickoff_flying : step kickoff (Pointer 1 0) = flying 0 0.
Proof.
  unfold kickoff, opening, run. simpl. unfold startGame, setNdc, render.
  simpl. unfold flying, with_refs, doReset, launchAngle. simpl.
  replace ((0.5 - 0.5) * 0.5) with 0 by lra.
  rewrite sin_0, cos_0.
  repeat (f_equal; try (consts; lra)).
Qed.

Lemma flying_kinematics (px z : R) :
  kinematics (refs (flying px z)) 0.05
  = (V3.mk 0 BALL_Y (z + 0.175), V3.mk 0 0 3.5).
Proof.
  unfold kinematics, wallReflect, wallLeft, wallRight, integrate. numbers.
Qed.

Lemma flying_playerHits (px z : R) :
  playerHits (refs (flying px z)) 0.05 = false.
Proof.
  unfold playerHits. rewrite flying_kinematics. unfold playerContact.
  replace (Rltb (Rabs _) _) with false; [apply andb_false_r |].
  symmetry. apply Rltb_false. unfold playerMove. numbers.
Qed.

Lemma flying_aiHits (px z : R) :
  aiHits easy (refs (flying px z)) 0.05 = false.
Proof.
  unfold aiHits, afterPlayer. rewrite flying_playerHits, flying_kinematics.
  unfold aiContact.
  replace (Rltb _ 0) with false; [reflexivity |].
  symmetry. apply Rltb_false. simpl. lra.
Qed.

Lemma flying_simulate (px z : R) :
  simulate easy (refs (flying px z)) 0.05
  = (refs (flying 2.4 (z + 0.175)),
     scoreTest (V3.mk 0 BALL_Y (z + 0.175))).
Proof.
  unfold simulate.
  rewrite (afterAI_no_contact _ _ _ (flying_playerHits px z)
             (flying_aiHits px z)).
  rewrite flying_playerHits, flying_aiHits, flying_kinematics.
  unfold aiMove. rewrite flying_kinematics.
  unfold flying, playerMove, aiPursuit. simpl.
  f_equal. f_equal; numbers.
Qed.

Lemma flying_step (px z : R) :
  - 5.5 <= z + 0.175 <= 5.5 ->
  useFrame (flying px z) 0.05 = flying 2.4 (z + 0.175).
Proof.
  intros Hz. unfold useFrame.
  change (props_difficulty (scene (flying px z))) with easy.
  rewrite flying_simulate.
  replace (scoreTest _) with (@None Side); [reflexivity |].
  unfold scoreTest. numbers.
Qed.

Lemma flying_run (n : nat) (z : R) :
  - 5.5 <= z -> z + 0.175 * INR n <= 5.5 ->
  run (flying 2.4 z) (repeat (Frame 0.05) n)
  = flying 2.4 (z + 0.175 * INR n).
Proof.
  revert z. induction n as [| n IH]; intros z Hz Hn.
  - simpl. apply flying_ext; lra.
  - rewrite S_INR in Hn. pose proof (pos_INR n) as Hp.
    cbn [repeat run fold_left step].
    rewrite flying_step by lra.
    change (fold_left step (repeat (Frame 0.05) n) ?w)
      with (run w (repeat (Frame 0.05) n)).
    rewrite IH by lra.
    apply flying_ext; [reflexivity |]. rewrite S_INR. lra.
Qed.

Lemma flying_score (px z : R) :
  5.5 < z + 0.175 ->
  useFrame (flying px z) 0.05
  = handleScore
      (with_scored true
         (with_refs (refs (flying 2.4 (z + 0.175))) (flying px z))) AI.
Proof.
  intros Hz. unfold useFrame.
  change (props_difficulty (scene (flying px z))) with easy.
  rewrite flying_simulate.
  replace (scoreTest _) with (Some AI); [reflexivity |].
  unfold scoreTest. numbers.
Qed.

Lemma abandon_run : run initial abandon = abandoned.
Proof.
  unfold abandon. rewrite !run_app.
  change (run initial opening) with kickoff.
  change (run kickoff [Pointer 1 0]) with (step kickoff (Pointer 1 0)).
  rewrite kickoff_flying.
  change (repeat (Frame 0.05) 32)
    with ([Frame 0.05] ++ repeat (Frame 0.05) 30 ++ [Frame 0.05]).
  rewrite !run_app.
  change (run (flying 0 0) [Frame 0.05]) with (useFrame (flying 0 0) 0.05).
  rewrite flying_step by lra.
  rewrite flying_run by (simpl; lra).
  match goal with
  | |- context [run (flying 2.4 ?z) [Frame 0.05]] =>
      change (run (flying 2.4 z) [Frame 0.05])
        with (useFrame (flying 2.4 z) 0.05);
      rewrite (flying_score 2.4 z) by (simpl; lra);
      rewrite (flying_ext 2.4 2.4 (z + 0.175) 5.6) by (simpl; lra)
  end.
  reflexivity.
Qed.

Lemma abandon_admissible : Forall admissible abandon.
Proof.
  unfold abandon, opening. simpl.
  repeat (apply Forall_cons; [simpl; try exact I; lra |]).
  apply Forall_nil.
Qed.

Lemma abandoned_timer :
  run abandoned [TimerFire 0.5; Render]
  = {| game := {| phase := Playing; difficulty := easy;
                  scores := {| player := 0; ai := 1 |}; winner := None |};
       refs := {| ndcRef := (1, 0);
                  ballRef := V3.mk 0 BALL_Y 0;
                  velRef := V3.mk 0 0 3.5;
                  playerXRef := 2.4; aiXRef := 0; firstHitRef := false |};
       scene := {| props_phase := Playing; props_difficulty := easy;
                   scoredRef := false; prevPhase := Playing |};
       timers := [] |}.
Proof.
  unfold abandoned, run. simpl. unfold render, fireTimer, doReset, launchAngle.
  simpl. replace ((0.5 - 0.5) * 0.5) with 0 by lra. rewrite sin_0, cos_0.
  repeat (f_equal; try (consts; lra)).
Qed.

(** No button cancels a pending timer, and a pending timer that fires
    resets the ball and sets the phase to Playing, whatever the phase is. *)
Lemma click_timers (w : World) (b : Button) : timers (click w b) = timers w.
Proof. unfold click. destruct (props_phase (scene w)), b; reflexivity. Qed.

Lemma timer_fires_anyway (w : World) (t : Timer) (ts : list Timer) (u : R) :
  timers w = t :: ts ->
  phase (game (step w (TimerFire u))) = Playing
  /\ ballRef (refs (step w (TimerFire u))) = V3.mk 0 BALL_Y 0
  /\ firstHitRef (refs (step w (TimerFire u))) = false.
Proof. intros H. simpl. rewrite H. simpl. auto. Qed.

(** C2, at the run [abandon]: the claim wants the reset scheduled by the
    score never to happen once the player has returned to the menu.  In the
    code the return to the menu is [setPhase("start")] and nothing else, so
    the timer stays pending; when it fires, from the start screen, the ball
    is put back at the centre and served, and the phase becomes Playing. *)
Theorem menu_abandon_reset_fires :
  reachable (run initial abandon)
  /\ phase (game (run initial abandon)) = Start
  /\ props_phase (scene (run initial abandon)) = Start
  /\ V3.z (ballRef (refs (run initial abandon))) = 5.6
  /\ timers (run initial abandon)
     = [{| timer_diff := easy; timer_towardPlayer := true |}]
  /\ admissible (TimerFire 0.5)
  /\ let w' := run initial (abandon ++ [TimerFire 0.5; Render]) in
     phase (game w') = Playing
     /\ props_phase (scene w') = Playing
     /\ scoredRef (scene w') = false
     /\ ballRef (refs w') = V3.mk 0 BALL_Y 0
     /\ velRef (refs w') = V3.mk 0 0 3.5
     /\ firstHitRef (refs w') = false.
Proof.
  split.
  - apply reachable_run; [apply reach_initial | apply abandon_admissible].
  - rewrite run_app, abandon_run, abandoned_timer.
    repeat split; try reflexivity; simpl; lra.
Qed.

(** ** A straight rally reaches the growth step above [speedMax] *)

Lemma rallying_ext (z z' vz vz' : R) (fh : bool) :
  z = z' -> vz = vz' -> rallying z vz fh = rallying z' vz' fh.
Proof. now intros -> ->. Qed.

Lemma kickoff_rallying : kickoff = rallying 0 3.5 false.
Proof.
  unfold kickoff, opening, run. simpl. unfold startGame, render.
  simpl. unfold rallying, doReset, launchAngle. simpl.
  replace ((0.5 - 0.5) * 0.5) with 0 by lra.
  rewrite sin_0, cos_0.
  repeat (f_equal; try (consts; lra)).
Qed.

Section StraightFrame.

Variables (z vz d : R) (fh : bool).
Hypothesis d_range : 0 <= d <= 0.05.

Lemma rallying_kinematics :
  kinematics (refs (rallying z vz fh)) d
  = (V3.mk 0 BALL_Y (z + vz * d), V3.mk 0 0 vz).
Proof.
  unfold kinematics, wallReflect, wallLeft, wallRight, integrate. numbers.
Qed.

Lemma rallying_playerMove : playerMove (refs (rallying z vz fh)) = 0.
Proof. unfold playerMove. numbers. Qed.

Lemma rallying_aiMove : aiMove easy (refs (rallying z vz fh)) d = 0.
Proof. unfold aiMove. rewrite rallying_kinematics. unfold aiPursuit. numbers. Qed.

Lemma rallying_playerHits :
  playerHits (refs (rallying z vz fh)) d
  = Rltb 0 vz && Rleb 4.225 (z + vz * d) && Rleb (z + vz * d) 4.775.
Proof.
  unfold playerHits. rewrite rallying_kinematics, rallying_playerMove.
  unfold playerContact. cbn [fst snd V3.x V3.z].
  replace (Rltb (Rabs (0 - 0)) (PADDLE_W / 2 + BALL_R)) with true
    by (symmetry; apply Rltb_true; rewrite Rminus_diag, Rabs_R0; consts; lra).
  rewrite andb_true_r. consts.
  replace (10 / 2 - 0.5 - 0.25 / 2 - 0.15) with 4.225 by lra.
  replace (10 / 2 - 0.5 + 0.25 / 2 + 0.15) with 4.775 by lra.
  reflexivity.
Qed.

(** Between the two bands nothing but integration happens. *)
Lemma rallying_free :
  - 4.225 < z + vz * d < 4.225 ->
  useFrame (rallying z vz fh) d = rallying (z + vz * d) vz fh.
Proof.
  intros Hz.
  assert (Hp : playerHits (refs (rallying z vz fh)) d = false).
  { rewrite rallying_playerHits.
    replace (Rleb 4.225 _) with false by (symmetry; apply Rleb_false; lra).
    now rewrite andb_false_r. }
  assert (Ha : aiHits easy (refs (rallying z vz fh)) d = false).
  { unfold aiHits, afterPlayer. rewrite Hp, rallying_kinematics.
    unfold aiContact. cbn [fst snd V3.x V3.z].
    replace (Rleb (z + vz * d) _) with false
      by (symmetry; apply Rleb_false; consts; lra).
    now rewrite andb_false_r. }
  unfold useFrame.
  change (props_difficulty (scene (rallying z vz fh))) with easy.
  cbn [negb orb Phase_eqb props_phase scene scoredRef rallying].
  fold (rallying z vz fh).
  unfold simulate.
  rewrite (afterAI_no_contact _ _ _ Hp Ha), Hp, Ha.
  rewrite rallying_kinematics, rallying_playerMove, rallying_aiMove.
  cbn [fst snd].
  replace (scoreTest _) with (@None Side);
    [| unfold scoreTest; numbers].
  unfold rallying, with_refs. simpl. now rewrite !orb_false_r.
Qed.

End StraightFrame.

Section StraightHit.

Variables (z vz d : R) (fh : bool).
Hypothesis d_range : 0 <= d <= 0.05.

(** The ball enters the player's band: it leaves from the front of the
    paddle with the velocity the speed branch gives. *)
Lemma rallying_playerHit (v' : R) :
  0 < vz -> 4.225 <= z + vz * d <= 4.775 ->
  hitSpeed easy 1.05 fh (V3.mk 0 0 (- vz)) = V3.mk 0 0 v' ->
  useFrame (rallying z vz fh) d = rallying 4.225 v' true.
Proof.
  intros Hv Hz Hs.
  assert (Hp : playerHits (refs (rallying z vz fh)) d = true).
  { rewrite (rallying_playerHits z vz d fh d_range).
    replace (Rltb 0 vz) with true by (symmetry; now apply Rltb_true).
    replace (Rleb 4.225 _) with true by (symmetry; apply Rleb_true; lra).
    replace (Rleb _ 4.775) with true by (symmetry; apply Rleb_true; lra).
    reflexivity. }
  pose proof (contacts_exclusive easy _ _ Hp) as Ha.
  assert (Hafter : afterAI easy (refs (rallying z vz fh)) d
                   = (V3.mk 0 BALL_Y 4.225, V3.mk 0 0 v')).
  { unfold afterAI. rewrite Ha. unfold afterPlayer.
    rewrite Hp, (rallying_kinematics z vz d fh d_range), rallying_playerMove.
    unfold playerHit. f_equal.
    - unfold V3.setZ. simpl. f_equal. consts. lra.
    - rewrite <- Hs. f_equal. unfold playerDeflect. simpl. f_equal.
      + unfold Rdiv. ring.
      + now rewrite Rabs_pos_eq by lra. }
  unfold useFrame.
  change (props_difficulty (scene (rallying z vz fh))) with easy.
  cbn [negb orb Phase_eqb props_phase scene scoredRef rallying].
  fold (rallying z vz fh).
  unfold simulate.
  rewrite Hafter, Hp, Ha, rallying_playerMove,
    (rallying_aiMove z vz d fh d_range).
  cbn [fst snd].
  replace (scoreTest _) with (@None Side);
    [| unfold scoreTest; numbers].
  unfold rallying, with_refs. simpl. now rewrite orb_true_r.
Qed.

(** The same at the AI's band. *)
Lemma rallying_aiHit (v' : R) :
  vz < 0 -> - 4.775 <= z + vz * d <= - 4.225 ->
  hitSpeed easy 1.03 fh (V3.mk 0 0 (- vz)) = V3.mk 0 0 v' ->
  useFrame (rallying z vz fh) d = rallying (- 4.225) v' true.
Proof.
  intros Hv Hz Hs.
  assert (Hp : playerHits (refs (rallying z vz fh)) d = false).
  { rewrite (rallying_playerHits z vz d fh d_range).
    replace (Rltb 0 vz) with false by (symmetry; apply Rltb_false; lra).
    reflexivity. }
  assert (Ha : aiHits easy (refs (rallying z vz fh)) d = true).
  { unfold aiHits, afterPlayer.
    rewrite Hp, (rallying_kinematics z vz d fh d_range),
      (rallying_aiMove z vz d fh d_range).
    unfold aiContact. cbn [fst snd V3.x V3.z].
    replace (Rltb vz 0) with true by (symmetry; now apply Rltb_true).
    replace (Rleb (z + vz * d) _) with true
      by (symmetry; apply Rleb_true; consts; lra).
    replace (Rleb _ (z + vz * d)) with true
      by (symmetry; apply Rleb_true; consts; lra).
    replace (Rltb (Rabs (0 - 0)) _) with true
      by (symmetry; apply Rltb_true; rewrite Rminus_diag, Rabs_R0;
          consts; lra).
    reflexivity. }
  assert (Hafter : afterAI easy (refs (rallying z vz fh)) d
                   = (V3.mk 0 BALL_Y (- 4.225), V3.mk 0 0 v')).
  { unfold afterAI. rewrite Ha. unfold afterPlayer.
    rewrite Hp, (rallying_kinematics z vz d fh d_range),
      (rallying_aiMove z vz d fh d_range), orb_false_r.
    unfold aiHit. f_equal.
    - unfold V3.setZ. simpl. f_equal. consts. lra.
    - rewrite <- Hs. f_equal. unfold aiDeflect. simpl. f_equal.
      + unfold Rdiv. ring.
      + now rewrite Rabs_left by lra. }
  unfold useFrame.
  change (props_difficulty (scene (rallying z vz fh))) with easy.
  cbn [negb orb Phase_eqb props_phase scene scoredRef rallying].
  fold (rallying z vz fh).
  unfold simulate.
  rewrite Hafter, Hp, Ha, rallying_playerMove,
    (rallying_aiMove z vz d fh d_range).
  cbn [fst snd].
  replace (scoreTest _) with (@None Side);
    [| unfold scoreTest; numbers].
  unfold rallying, with_refs. simpl. now rewrite orb_true_r.
Qed.

End StraightHit.

Lemma rallying_free_run (vz d h : R) (fh : bool) :
  0 <= d <= 0.05 -> vz * d = h ->
  forall (n : nat) (z : R),
    (forall k, (1 <= k <= n)%nat -> - 4.225 < z + h * INR k < 4.225) ->
    run (rallying z vz fh) (repeat (Frame d) n)
    = rallying (z + h * INR n) vz fh.
Proof.
  intros Hd Hh. induction n as [| n IH]; intros z Hk.
  - simpl. apply rallying_ext; lra.
  - cbn [repeat run fold_left step].
    assert (H1 : - 4.225 < z + vz * d < 4.225).
    { specialize (Hk 1%nat). simpl in Hk. rewrite Hh.
      assert (Hk1 : - 4.225 < z + h * 1 < 4.225) by (apply Hk; lia). lra. }
    rewrite (rallying_free z vz d fh Hd H1).
    change (fold_left step (repeat (Frame d) n) ?w)
      with (run w (repeat (Frame d) n)).
    rewrite IH.
    + apply rallying_ext; [| reflexivity]. rewrite S_INR, Hh. lra.
    + intros k Hkn. specialize (Hk (S k)). rewrite S_INR, Hh in *.
      assert (Hr : z + h * (INR k + 1) = z + h + h * INR k) by lra.
      rewrite <- Hr. apply Hk. lia.
Qed.

Lemma INR_range (k n : nat) : (1 <= k <= n)%nat -> 1 <= INR k <= INR n.
Proof.
  intros [H1 H2]. split.
  - replace 1 with (INR 1) by reflexivity. now apply le_INR.
  - now apply le_INR.
Qed.

Lemma serve_run :
  run (rallying 0 3.5 false) (repeat (Frame 0.05) 25)
  = rallying 4.225 (- 8) true.
Proof.
  assert (Hd : 0 <= 0.05 <= 0.05) by lra.
  change (repeat (Frame 0.05) 25)
    with (repeat (Frame 0.05) 24 ++ [Frame 0.05]).
  rewrite run_app.
  rewrite (rallying_free_run 3.5 0.05 0.175 false Hd) by
    first [ lra
          | intros k Hk; apply INR_range in Hk;
            rewrite (INR_IZR_INZ 24) in Hk; simpl in Hk; lra ].
  rewrite (INR_IZR_INZ 24). simpl Z.of_nat.
  cbn [run fold_left step].
  apply (rallying_playerHit _ _ _ _ Hd); [lra | lra |].
  assert (Hl : V3.length (V3.mk 0 0 (Ropp 3.5)) = 3.5).
  { rewrite length_axis_z by reflexivity.
    rewrite Rabs_Ropp. apply Rabs_pos_eq. lra. }
  assert (Hpos : 0 < V3.length (V3.mk 0 0 (Ropp 3.5))) by (rewrite Hl; lra).
  destruct (hitSpeed_first easy 1.05 _ Hpos) as (_ & -> & _).
  rewrite Hl. unfold V3.multiplyScalar. simpl. f_equal; lra.
Qed.

Lemma legDelta_spec (s : R) :
  8 <= s -> s * legDelta s = 0.21625 /\ 0 <= legDelta s <= 0.05.
Proof.
  intros Hs.
  assert (H1 : s * legDelta s = 0.21625).
  { unfold legDelta.
    replace 8.65 with (865 / 100) by lra.
    replace 0.21625 with (21625 / 100000) by lra.
    field. lra. }
  assert (H2 : 0 < legDelta s).
  { unfold legDelta. apply Rdiv_lt_0_compat; lra. }
  split; [exact H1 | nra].
Qed.

(** Thirty-nine frames of a leg are free flight. *)
Lemma leg_flight (s z v : R) (fh : bool) :
  8 <= s -> (v = s \/ v = - s) ->
  (forall k, (1 <= k <= 39)%nat ->
             - 4.225 < z + v * legDelta s * INR k < 4.225) ->
  run (rallying z v fh) (repeat (Frame (legDelta s)) 39)
  = rallying (z + v * legDelta s * 39) v fh.
Proof.
  intros Hs Hv Hk. destruct (legDelta_spec s Hs) as [_ Hd].
  rewrite (rallying_free_run v (legDelta s) (v * legDelta s) fh Hd eq_refl)
    by exact Hk.
  apply rallying_ext; [| reflexivity].
  rewrite (INR_IZR_INZ 39). simpl Z.of_nat. reflexivity.
Qed.

Lemma leg_run (s : R) (toAI : bool) :
  8 <= s < 18 ->
  run (legStart s toAI) (leg s) = legStart (grown s toAI) (negb toAI).
Proof.
  intros Hs. destruct (legDelta_spec s) as [Hsd Hd]; [lra |].
  unfold leg.
  change (repeat (Frame (legDelta s)) 40)
    with (repeat (Frame (legDelta s)) 39 ++ [Frame (legDelta s)]).
  rewrite run_app. destruct toAI; unfold legStart, grown; cbn [negb].
  - rewrite (leg_flight s 4.225 (- s) true);
      [| lra | now right
       | intros k Hk; apply INR_range in Hk;
         rewrite (INR_IZR_INZ 39) in Hk; simpl in Hk; nra ].
    cbn [run fold_left step].
    apply (rallying_aiHit _ _ _ _ Hd); [lra | nra |].
    assert (Hk : 0 <= 1.03) by lra.
    destruct (hitSpeed_later easy 1.03 (V3.mk 0 0 (- - s)) Hk) as [Hlt _].
    destruct Hlt as [E _].
    + rewrite length_axis_z by reflexivity.
      rewrite Ropp_involutive, Rabs_pos_eq by lra. simpl. lra.
    + rewrite E. unfold V3.multiplyScalar. simpl. f_equal; lra.
  - rewrite (leg_flight s (- 4.225) s true);
      [| lra | now left
       | intros k Hk; apply INR_range in Hk;
         rewrite (INR_IZR_INZ 39) in Hk; simpl in Hk; nra ].
    cbn [run fold_left step].
    apply (rallying_playerHit _ _ _ _ Hd); [lra | nra |].
    assert (Hk : 0 <= 1.05) by lra.
    destruct (hitSpeed_later easy 1.05 (V3.mk 0 0 (- s)) Hk) as [Hlt _].
    destruct Hlt as [E _].
    + rewrite length_axis_z by reflexivity.
      rewrite Rabs_Ropp, Rabs_pos_eq by lra. simpl. lra.
    + rewrite E. unfold V3.multiplyScalar. simpl. f_equal; lra.
Qed.

Lemma legs_run (n : nat) :
  forall (s : R) (toAI : bool),
    rallyBelow n s toAI ->
    run (legStart s toAI) (rallyLegs n s toAI)
    = legStart (rallySpeed n s toAI) (rallySide n toAI).
Proof.
  induction n as [| n IH]; intros s toAI Hb; [reflexivity |].
  destruct Hb as [Hs Hb]. cbn [rallyLegs rallySpeed rallySide].
  rewrite run_app, (leg_run s toAI Hs). now apply IH.
Qed.

Lemma rally_below : rallyBelow 20 8 true.
Proof.
  cbn [rallyBelow negb]. unfold grown. repeat (split; [lra |]). exact I.
Qed.

Lemma rally_speed_20 : 17.51 < rallySpeed 20 8 true < 17.52.
Proof. cbn [rallySpeed negb]. unfold grown. lra. Qed.

Lemma leg_admissible (s : R) : 8 <= s -> Forall admissible (leg s).
Proof.
  intros Hs. destruct (legDelta_spec s Hs) as [_ [Hd _]].
  unfold leg. apply Forall_forall. intros e He.
  apply repeat_spec in He. subst e. exact Hd.
Qed.

Lemma rallyLegs_admissible (n : nat) :
  forall (s : R) (toAI : bool),
    rallyBelow n s toAI -> Forall admissible (rallyLegs n s toAI).
Proof.
  induction n as [| n IH]; intros s toAI Hb; [apply Forall_nil |].
  destruct Hb as [Hs Hb]. cbn [rallyLegs]. apply Forall_app. split.
  - apply leg_admissible. lra.
  - now apply IH.
Qed.

Lemma straightRally_admissible : Forall admissible straightRally.
Proof.
  pose proof rally_speed_20 as Hs.
  destruct (legDelta_spec (rallySpeed 20 8 true)) as [_ [Hd _]]; [lra |].
  unfold straightRally.
  apply Forall_app; split; [| apply Forall_app; split;
                               [| apply Forall_app; split]].
  - unfold opening. repeat (apply Forall_cons; [simpl; try exact I; lra |]).
    apply Forall_nil.
  - apply Forall_forall. intros e He. apply repeat_spec in He. subst e.
    simpl. lra.
  - apply rallyLegs_admissible, rally_below.
  - apply Forall_forall. intros e He. apply repeat_spec in He. subst e.
    exact Hd.
Qed.

Lemma straightRally_run :
  run initial straightRally
  = rallying (4.225 - 0.21625 * 39) (- rallySpeed 20 8 true) true.
Proof.
  pose proof rally_speed_20 as Hs.
  destruct (legDelta_spec (rallySpeed 20 8 true)) as [Hsd Hd]; [lra |].
  unfold straightRally. rewrite !run_app.
  change (run initial opening) with kickoff.
  rewrite kickoff_rallying, serve_run.
  change (rallying 4.225 (- 8) true) with (legStart 8 true).
  rewrite (legs_run 20 8 true rally_below).
  change (rallySide 20 true) with true. unfold legStart.
  rewrite (leg_flight (rallySpeed 20 8 true));
    [| lra | now right
     | intros k Hk; apply INR_range in Hk;
       rewrite (INR_IZR_INZ 39) in Hk; simpl in Hk; nra ].
  apply rallying_ext; [nra | reflexivity].
Qed.

Lemma straightRally_next :
  useFrame (run initial straightRally) (legDelta (rallySpeed 20 8 true))
  = rallying (- 4.225) (rallySpeed 20 8 true * 1.03) true.
Proof.
  pose proof rally_speed_20 as Hs.
  destruct (legDelta_spec (rallySpeed 20 8 true)) as [Hsd Hd]; [lra |].
  rewrite straightRally_run.
  apply (rallying_aiHit _ _ _ _ Hd); [lra | nra |].
  assert (Hk : 0 <= 1.03) by lra.
  destruct (hitSpeed_later easy 1.03
              (V3.mk 0 0 (- - rallySpeed 20 8 true)) Hk) as [Hlt _].
  destruct Hlt as [E _].
  - rewrite length_axis_z by reflexivity.
    rewrite Ropp_involutive, Rabs_pos_eq by lra. cbn [speedMax DIFF]. lra.
  - rewrite E. unfold V3.multiplyScalar. cbn [V3.x V3.y V3.z].
    f_equal; lra.
Qed.

(** C1 as stated fails in a reachable state.  In the run [straightRally]
    the serve is straight and both paddles stay on the centre line, so the
    ball goes back and forth along the depth axis; the first hit sets its
    speed to 8 and the twenty hits that follow multiply it by 1.03 and 1.05
    in turn, up to about 17.51, below the easy tier's [speedMax] of 18.  The
    next frame is a contact with the AI's paddle, not the first of the
    point, and leaves the ball at 1.03 times that speed, above 18. *)
Lemma rally_speed_cap_counterexample :
  let s := rallySpeed 20 8 true in
  let w := run initial straightRally in
  let w' := useFrame w (legDelta s) in
  reachable w
  /\ admissible (Frame (legDelta s))
  /\ props_phase (scene w) = Playing
  /\ scoredRef (scene w) = false
  /\ firstHitRef (refs w) = true
  /\ velRef (refs w) = V3.mk 0 0 (- s)
  /\ V3.length (velRef (refs w)) < speedMax (DIFF easy)
  /\ velRef (refs w') = V3.mk 0 0 (s * 1.03)
  /\ speedMax (DIFF easy) < V3.length (velRef (refs w')).
Proof.
  intros s w w'. subst w' w s.
  rewrite straightRally_next.
  pose proof rally_speed_20 as Hs.
  set (s := rallySpeed 20 8 true) in *.
  destruct (legDelta_spec s) as [_ [Hd _]]; [lra |].
  split; [apply reachable_run;
          [apply reach_initial | apply straightRally_admissible] |].
  split; [exact Hd |].
  rewrite straightRally_run. fold s.
  repeat (split; [reflexivity |]).
  cbn [refs velRef rallying speedMax DIFF].
  rewrite !length_axis_z by reflexivity.
  rewrite Rabs_Ropp, !Rabs_pos_eq by lra.
  split; [lra |]. split; [reflexivity | lra].
Qed.

(** * Further properties of the code *)

(** ** Pointer and paddle *)

Lemma ratio_range (a b : R) : 0 < b -> 0 <= a <= b -> 0 <= a / b <= 1.
Proof.
  intros Hb Ha.
  assert (H : a / b * b = a) by (field; lra).
  assert (Hi : 0 < / b) by now apply Rinv_0_lt_compat.
  unfold Rdiv in *. split; nra.
Qed.

(** X1. A pointer inside the input surface is mapped to normalised
    coordinates in [[-1, 1]], left edge to -1, right edge to 1, top edge
    to 1, bottom edge to -1, and the client position can be read back from
    them; the handler writes nothing but [ndcRef].  The touch handlers do
    nothing without a touch and otherwise treat the first touch like the
    mouse, whatever touches follow it. *)
Theorem pointer_inside_surface (w : World) (r : Rect) (clientX clientY : R)
  (more : list (R * R)) :
  0 < rect_width r -> 0 < rect_height r ->
  rect_left r <= clientX <= rect_left r + rect_width r ->
  rect_top r <= clientY <= rect_top r + rect_height r ->
  let w' := handleMouseMove w r clientX clientY in
  let nx := fst (ndcRef (refs w')) in
  let ny := snd (ndcRef (refs w')) in
  -1 <= nx <= 1 /\ -1 <= ny <= 1
  /\ clientX = rect_left r + (nx + 1) / 2 * rect_width r
  /\ clientY = rect_top r + (1 - ny) / 2 * rect_height r
  /\ (clientX = rect_left r -> nx = -1)
  /\ (clientX = rect_left r + rect_width r -> nx = 1)
  /\ (clientY = rect_top r -> ny = 1)
  /\ (clientY = rect_top r + rect_height r -> ny = -1)
  /\ game w' = game w /\ scene w' = scene w /\ timers w' = timers w
  /\ ballRef (refs w') = ballRef (refs w)
  /\ velRef (refs w') = velRef (refs w)
  /\ playerXRef (refs w') = playerXRef (refs w)
  /\ aiXRef (refs w') = aiXRef (refs w)
  /\ firstHitRef (refs w') = firstHitRef (refs w)
  /\ handleTouchMove w r [] = w
  /\ handleTouchStart w r [] = w
  /\ handleTouchMove w r ((clientX, clientY) :: more) = w'
  /\ handleTouchStart w r ((clientX, clientY) :: more) = w'.
Proof.
  intros Hw Hh Hx Hy w' nx ny.
  assert (Ex : nx = (clientX - rect_left r) / rect_width r * 2 - 1)
    by reflexivity.
  assert (Ey : ny = - ((clientY - rect_top r) / rect_height r) * 2 + 1)
    by reflexivity.
  pose proof (ratio_range (clientX - rect_left r) (rect_width r) Hw) as Rx.
  pose proof (ratio_range (clientY - rect_top r) (rect_height r) Hh) as Ry.
  assert (Tx : (clientX - rect_left r) / rect_width r * rect_width r
               = clientX - rect_left r) by (field; lra).
  assert (Ty : (clientY - rect_top r) / rect_height r * rect_height r
               = clientY - rect_top r) by (field; lra).
  set (tx := (clientX - rect_left r) / rect_width r) in *.
  set (ty := (clientY - rect_top r) / rect_height r) in *.
  repeat split; try reflexivity; try nra.
Qed.

Lemma pointer_inside_surface_witness :
  let r := {| rect_left := 0; rect_top := 0;
              rect_width := 1280; rect_height := 720 |} in
  0 < rect_width r /\ 0 < rect_height r
  /\ rect_left r <= 960 <= rect_left r + rect_width r
  /\ rect_top r <= 180 <= rect_top r + rect_height r
  /\ -1 <= fst (ndcRef (refs (handleMouseMove initial r 960 180))) <= 1
  /\ -1 <= snd (ndcRef (refs (handleMouseMove initial r 960 180))) <= 1.
Proof.
  intros r.
  assert (Hw : 0 < rect_width r) by (simpl; lra).
  assert (Hh : 0 < rect_height r) by (simpl; lra).
  assert (Hx : rect_left r <= 960 <= rect_left r + rect_width r)
    by (simpl; lra).
  assert (Hy : rect_top r <= 180 <= rect_top r + rect_height r)
    by (simpl; lra).
  split; [exact Hw |]. split; [exact Hh |].
  split; [exact Hx |]. split; [exact Hy |].
  destruct (pointer_inside_surface initial r 960 180 [] Hw Hh Hx Hy)
    as (Rx & Ry & _).
  split; [exact Rx | exact Ry].
Defined.

Lemma playerMove_cases (r : Refs) :
  let nx := fst (ndcRef r) in
  (8 / 11 <= nx /\ playerMove r = maxPX)
  \/ (nx <= - (8 / 11) /\ playerMove r = - maxPX)
  \/ (- (8 / 11) <= nx <= 8 / 11 /\ playerMove r = 3.3 * nx).
Proof.
  intros nx. unfold playerMove, clampOffset, Rmax, Rmin. fold nx.
  destruct (Rle_dec maxPX _) as [H1 | H1]; destruct (Rle_dec _ _) as [H2 | H2];
    consts.
  - left. split; lra.
  - left. split; lra.
  - destruct (Rle_dec (8 / 11) nx); [left; split; lra |].
    right. right. split; lra.
  - right. left. split; lra.
Qed.

(** X2. The player's paddle follows the pointer: its offset is 3.3 times the
    normalised pointer coordinate, cut off at the ends of the paddle's
    range, so it never leaves the range, it is monotone in the pointer, it
    sits at an end stop as soon as the pointer is 8/11 of the way from the
    centre to that edge, and every offset of the range is reached by a
    pointer strictly inside the surface.  The frame stores that offset. *)
Theorem paddle_follows_pointer (d : Difficulty) (r r2 : Refs) (delta p : R) :
  let nx := fst (ndcRef r) in
  - maxPX <= playerMove r <= maxPX
  /\ (8 / 11 <= nx -> playerMove r = maxPX)
  /\ (nx <= - (8 / 11) -> playerMove r = - maxPX)
  /\ (- (8 / 11) <= nx <= 8 / 11 -> playerMove r = 3.3 * nx)
  /\ (nx <= fst (ndcRef r2) -> playerMove r <= playerMove r2)
  /\ (- maxPX <= p <= maxPX ->
      -1 < p / 3.3 < 1
      /\ forall r3, fst (ndcRef r3) = p / 3.3 -> playerMove r3 = p)
  /\ playerXRef (fst (simulate d r delta)) = playerMove r.
Proof.
  intros nx.
  pose proof (playerMove_cases r) as C. fold nx in C.
  pose proof (playerMove_cases r2) as C2. cbv zeta in C2.
  assert (Hm : maxPX = 2.4) by (consts; lra).
  split; [destruct C as [[? ->] | [[? ->] | [? ->]]]; lra |].
  split; [intros; destruct C as [[? ->] | [[? ->] | [? ->]]]; lra |].
  split; [intros; destruct C as [[? ->] | [[? ->] | [? ->]]]; lra |].
  split; [intros; destruct C as [[? ->] | [[? ->] | [? ->]]]; lra |].
  split.
  { intros Hle.
    destruct C as [[? ->] | [[? ->] | [? ->]]];
      destruct C2 as [[? ->] | [[? ->] | [? ->]]]; lra. }
  split; [| reflexivity].
  intros Hp. split; [lra |].
  intros r3 E. pose proof (playerMove_cases r3) as C3. cbv zeta in C3.
  rewrite E in C3.
  destruct C3 as [[? ->] | [[? ->] | [? ->]]]; lra.
Qed.

Lemma paddle_follows_pointer_witness :
  8 / 11 <= fst (ndcRef cornerRefs)
  /\ playerMove cornerRefs = maxPX
  /\ playerXRef (fst (simulate easy cornerRefs 0.02)) = maxPX.
Proof.
  assert (H : 8 / 11 <= fst (ndcRef cornerRefs)) by (simpl; lra).
  destruct (paddle_follows_pointer easy cornerRefs cornerRefs 0.02 0)
    as (_ & Hr & _ & _ & _ & _ & Hs).
  split; [exact H |]. split; [exact (Hr H) |].
  rewrite Hs. exact (Hr H).
Defined.

(** ** Ranges *)

Lemma simulate_paddles (d : Difficulty) (r : Refs) (delta : R) :
  - maxPX <= playerXRef (fst (simulate d r delta)) <= maxPX
  /\ - maxAX <= aiXRef (fst (simulate d r delta)) <= maxAX.
Proof.
  unfold simulate, playerMove, aiMove, aiPursuit. simpl.
  split; apply clampOffset_bounds; consts; lra.
Qed.

Lemma step_paddles (w : World) (e : Event) :
  - maxPX <= playerXRef (refs w) <= maxPX ->
  - maxAX <= aiXRef (refs w) <= maxAX ->
  - maxPX <= playerXRef (refs (step w e)) <= maxPX
  /\ - maxAX <= aiXRef (refs (step w e)) <= maxAX.
Proof.
  intros Hp Ha. destruct e as [delta | | nx ny | b | d u | u]; simpl.
  - destruct (useFrame_refs w delta) as [-> | ->];
      [auto | apply simulate_paddles].
  - auto.
  - auto.
  - rewrite click_refs. auto.
  - destruct (props_phase (scene w)); simpl; auto.
  - destruct (timers w); simpl; auto.
Qed.

(** X3. In every reachable state both paddles are within their range of
    offsets and the ball is between the side walls. *)
Theorem stays_on_table (w : World) :
  reachable w ->
  - maxPX <= playerXRef (refs w) <= maxPX
  /\ - maxAX <= aiXRef (refs w) <= maxAX
  /\ - wallX <= V3.x (ballRef (refs w)) <= wallX.
Proof.
  intros Hr.
  assert (H : - maxPX <= playerXRef (refs w) <= maxPX
              /\ - maxAX <= aiXRef (refs w) <= maxAX).
  { induction Hr as [| w e _ [Hp Ha] _].
    - simpl. consts. lra.
    - now apply step_paddles. }
  destruct H as [Hp Ha].
  repeat split; try apply Hp; try apply Ha;
    apply (reachable_within_walls w Hr).
Qed.

Lemma stays_on_table_witness :
  reachable (run initial abandon)
  /\ - maxPX <= playerXRef (refs (run initial abandon)) <= maxPX.
Proof.
  assert (H : reachable (run initial abandon))
    by (apply reachable_run; [apply reach_initial | apply abandon_admissible]).
  split; [exact H |].
  exact (proj1 (stays_on_table (run initial abandon) H)).
Defined.

(** ** The clamped time step *)

Lemma kinematics_clamped (r : Refs) (delta : R) :
  kinematics r delta = kinematics r (Rmin delta 0.05).
Proof.
  unfold kinematics.
  replace (Rmin (Rmin delta 0.05) 0.05) with (Rmin delta 0.05);
    [reflexivity |].
  symmetry. apply Rmin_left. apply Rmin_r.
Qed.

Lemma simulate_clamped (d : Difficulty) (r : Refs) (delta : R) :
  simulate d r delta = simulate d r (Rmin delta 0.05).
Proof.
  unfold simulate, afterAI, aiHits, aiMove, afterPlayer, playerHits.
  now rewrite (kinematics_clamped r delta).
Qed.

Lemma Rabs_bounds (a b : R) : Rabs a <= b -> - b <= a <= b.
Proof. unfold Rabs. destruct (Rcase_abs a); lra. Qed.

Lemma kinematics_x_step (r : Refs) (delta : R) :
  0 <= delta -> - wallX <= V3.x (ballRef r) <= wallX ->
  Rabs (V3.x (fst (kinematics r delta)) - V3.x (ballRef r))
  <= 0.05 * Rabs (V3.x (velRef r)).
Proof.
  intros Hd Hx. pose proof (dt_nonneg delta Hd) as Hdt.
  assert (Hdt2 : Rmin delta 0.05 <= 0.05) by apply Rmin_r.
  pose proof (Rabs_pos (V3.x (velRef r))) as Hv.
  assert (Hle : Rabs (V3.x (velRef r) * Rmin delta 0.05)
                <= 0.05 * Rabs (V3.x (velRef r))).
  { rewrite Rabs_mult, (Rabs_pos_eq (Rmin delta 0.05)) by lra. nra. }
  unfold kinematics.
  destruct (wallReflect_cases
              (integrate (ballRef r) (velRef r) (Rmin delta 0.05)) (velRef r))
    as [[Hc ->] | [[Hc ->] | [Hc ->]]]; simpl in *.
  - apply Rabs_bounds in Hle. apply Rabs_le. lra.
  - apply Rabs_bounds in Hle. apply Rabs_le. lra.
  - replace (V3.x (ballRef r) + V3.x (velRef r) * Rmin delta 0.05
             - V3.x (ballRef r))
      with (V3.x (velRef r) * Rmin delta 0.05) by ring.
    exact Hle.
Qed.

Lemma kinematics_z_step (r : Refs) (delta : R) :
  0 <= delta ->
  Rabs (V3.z (fst (kinematics r delta)) - V3.z (ballRef r))
  <= 0.05 * Rabs (V3.z (velRef r)).
Proof.
  intros Hd. pose proof (dt_nonneg delta Hd) as Hdt.
  assert (Hdt2 : Rmin delta 0.05 <= 0.05) by apply Rmin_r.
  pose proof (Rabs_pos (V3.z (velRef r))) as Hv.
  assert (Ez : V3.z (fst (kinematics r delta))
               = V3.z (ballRef r) + V3.z (velRef r) * Rmin delta 0.05).
  { unfold kinematics.
    destruct (wallReflect_cases
                (integrate (ballRef r) (velRef r) (Rmin delta 0.05))
                (velRef r))
      as [[_ ->] | [[_ ->] | [_ ->]]]; reflexivity. }
  rewrite Ez.
  replace (V3.z (ballRef r) + V3.z (velRef r) * Rmin delta 0.05
           - V3.z (ballRef r))
    with (V3.z (velRef r) * Rmin delta 0.05) by ring.
  rewrite Rabs_mult, (Rabs_pos_eq (Rmin delta 0.05)) by lra. nra.
Qed.

(** X4. However long the render loop stalled, a frame integrates over at
    most 50 ms: a frame with any longer [delta] is the frame with
    [delta = 0.05].  In one frame a ball between the walls moves sideways
    by at most 0.05 times its horizontal speed and, unless a paddle puts it
    back on its face, in depth by at most 0.05 times its depth speed. *)
Theorem frame_step_bounded (w : World) (d : Difficulty) (r : Refs)
  (delta : R) :
  0 <= delta -> - wallX <= V3.x (ballRef r) <= wallX ->
  let out := fst (simulate d r delta) in
  (0.05 <= delta ->
   simulate d r delta = simulate d r 0.05
   /\ useFrame w delta = useFrame w 0.05)
  /\ Rabs (V3.x (ballRef out) - V3.x (ballRef r))
     <= 0.05 * Rabs (V3.x (velRef r))
  /\ (playerHits r delta = false -> aiHits d r delta = false ->
      Rabs (V3.z (ballRef out) - V3.z (ballRef r))
      <= 0.05 * Rabs (V3.z (velRef r))).
Proof.
  intros Hd Hx out. split; [| split].
  - intros Hl.
    assert (E : forall d', simulate d' (refs w) delta
                           = simulate d' (refs w) 0.05).
    { intros d'. rewrite simulate_clamped. now rewrite Rmin_right by lra. }
    split.
    + rewrite simulate_clamped. now rewrite Rmin_right by lra.
    + unfold useFrame. now rewrite E.
  - subst out. unfold simulate. simpl. rewrite afterAI_x.
    now apply kinematics_x_step.
  - intros Hp Ha. subst out. unfold simulate. simpl.
    rewrite (afterAI_no_contact d r delta Hp Ha).
    now apply kinematics_z_step.
Qed.

Lemma frame_step_bounded_witness :
  0 <= 3 /\ 0.05 <= 3
  /\ - wallX <= V3.x (ballRef (refs kickoff)) <= wallX
  /\ useFrame kickoff 3 = useFrame kickoff 0.05.
Proof.
  assert (H0 : 0 <= 3) by lra.
  assert (H1 : 0.05 <= 3) by lra.
  assert (Hx : - wallX <= V3.x (ballRef (refs kickoff)) <= wallX)
    by (simpl; consts; lra).
  split; [exact H0 |]. split; [exact H1 |]. split; [exact Hx |].
  destruct (frame_step_bounded kickoff easy (refs kickoff) 3 H0 Hx)
    as (Hs & _).
  exact (proj2 (Hs H1)).
Defined.

(** ** The serve *)

Lemma kinematics_length (r : Refs) (delta : R) :
  V3.length (snd (kinematics r delta)) = V3.length (velRef r).
Proof.
  unfold kinematics.
  destruct (wallReflect_cases
              (integrate (ballRef r) (velRef r) (Rmin delta 0.05)) (velRef r))
    as [[_ ->] | [[_ ->] | [_ ->]]]; simpl; try reflexivity;
    unfold V3.length, V3.lengthSq, V3.setX; simpl; f_equal;
    pose proof (Rsqr_abs (V3.x (velRef r))) as H; unfold Rsqr in H; lra.
Qed.

Lemma simulate_unhit (d : Difficulty) (r : Refs) (delta : R) :
  firstHitRef (fst (simulate d r delta)) = false ->
  firstHitRef r = false
  /\ V3.length (velRef (fst (simulate d r delta))) = V3.length (velRef r).
Proof.
  unfold simulate. simpl. intros H.
  apply orb_false_elim in H. destruct H as [H Ha].
  apply orb_false_elim in H. destruct H as [Hf Hp].
  split; [exact Hf |].
  rewrite (afterAI_no_contact d r delta Hp Ha). apply kinematics_length.
Qed.

Lemma step_launch_speed (w : World) (e : Event) :
  (firstHitRef (refs w) = false ->
   V3.length (velRef (refs w)) = BALL_LAUNCH_SPEED) ->
  firstHitRef (refs (step w e)) = false ->
  V3.length (velRef (refs (step w e))) = BALL_LAUNCH_SPEED.
Proof.
  intros I. destruct e as [delta | | nx ny | b | d u | u]; simpl.
  - destruct (useFrame_refs w delta) as [-> | ->]; [exact I |].
    intros H. apply simulate_unhit in H. destruct H as [Hf ->]. auto.
  - exact I.
  - exact I.
  - rewrite click_refs. exact I.
  - destruct (props_phase (scene w)); try exact I.
    intros _. exact (doReset_speed (refs w) u d true).
  - destruct (timers w) as [| t ts]; [exact I |].
    intros _.
    exact (doReset_speed (refs w) u (timer_diff t) (timer_towardPlayer t)).
Qed.

(** X5. In every reachable state in which no paddle has been hit in the
    current point the ball travels at exactly the launch speed, 3.5: free
    flight and the side walls leave the speed as it is.  That is less than
    half of the speed any tier sets at the first contact. *)
Theorem serve_keeps_launch_speed (w : World) (d : Difficulty) :
  reachable w -> firstHitRef (refs w) = false ->
  V3.length (velRef (refs w)) = 3.5
  /\ 2 * V3.length (velRef (refs w)) < speedInit (DIFF d).
Proof.
  intros Hr Hf.
  assert (H : firstHitRef (refs w) = false ->
              V3.length (velRef (refs w)) = BALL_LAUNCH_SPEED).
  { clear Hf. induction Hr as [| w e _ IH _].
    - intros _. simpl. rewrite length_axis_z by reflexivity.
      apply Rabs_pos_eq. consts. lra.
    - now apply step_launch_speed. }
  rewrite (H Hf). consts. split; [reflexivity | destruct d; simpl; lra].
Qed.

Lemma serve_keeps_launch_speed_witness :
  reachable (run initial abandon)
  /\ firstHitRef (refs (run initial abandon)) = false
  /\ V3.length (velRef (refs (run initial abandon))) = 3.5.
Proof.
  assert (H : reachable (run initial abandon))
    by (apply reachable_run; [apply reach_initial | apply abandon_admissible]).
  assert (Hf : firstHitRef (refs (run initial abandon)) = false)
    by (rewrite abandon_run; reflexivity).
  split; [exact H |]. split; [exact Hf |].
  exact (proj1 (serve_keeps_launch_speed (run initial abandon) easy H Hf)).
Defined.

(** ** After a paddle is hit *)

Lemma hitSpeed_scales (d : Difficulty) (g : R) (fh : bool) (v : vec3) :
  0 < g -> 0 < V3.length v ->
  exists k, 0 < k /\ hitSpeed d g fh v = V3.multiplyScalar v k.
Proof.
  intros Hg Hl. destruct fh.
  - unfold hitSpeed. simpl. destruct (Rltb _ _).
    + exists g. now split.
    + exists 1. split; [lra |].
      unfold V3.multiplyScalar. destruct v as [a b c]. simpl.
      f_equal; ring.
  - destruct (hitSpeed_first d g v Hl) as (_ & E & _).
    exists (speedInit (DIFF d) / V3.length v). split; [| exact E].
    apply Rdiv_lt_0_compat; [apply speedInit_pos | exact Hl].
Qed.

Lemma player_hit_out (d : Difficulty) (r : Refs) (delta : R) :
  playerHits r delta = true ->
  fst (afterAI d r delta)
  = V3.setZ (fst (kinematics r delta)) (PLAYER_Z - PADDLE_D / 2 - BALL_R).
Proof.
  intros Hp. unfold afterAI. rewrite (contacts_exclusive d r delta Hp).
  unfold afterPlayer. rewrite Hp.
  destruct (kinematics r delta) as [pos vel]. reflexivity.
Qed.

Lemma ai_hit_out (d : Difficulty) (r : Refs) (delta : R) :
  aiHits d r delta = true ->
  fst (afterAI d r delta)
  = V3.setZ (fst (kinematics r delta)) (AI_Z + PADDLE_D / 2 + BALL_R).
Proof.
  intros Ha. destruct (afterAI_ai d r delta Ha) as [Hp _].
  unfold afterAI. rewrite Ha. unfold afterPlayer. rewrite Hp.
  destruct (kinematics r delta) as [pos vel]. reflexivity.
Qed.

Lemma kinematics_vz (r : Refs) (delta : R) :
  V3.z (snd (kinematics r delta)) = V3.z (velRef r).
Proof.
  unfold kinematics.
  destruct (wallReflect_cases
              (integrate (ballRef r) (velRef r) (Rmin delta 0.05)) (velRef r))
    as [[_ ->] | [[_ ->] | [_ ->]]]; reflexivity.
Qed.

(** X6. A frame in which the player's paddle is hit leaves the ball on the
    front face of that paddle, moving toward the AI, with the first-hit flag
    set; it signals no score, and in the next frame, whatever its length,
    the player's paddle is not hit again.  The same holds at the AI's
    paddle with the directions exchanged. *)
Theorem after_paddle_hit (d d2 : Difficulty) (r : Refs) (delta delta2 : R) :
  let out := fst (simulate d r delta) in
  (playerHits r delta = true ->
   V3.z (velRef out) < 0
   /\ V3.z (ballRef out) = PLAYER_Z - PADDLE_D / 2 - BALL_R
   /\ firstHitRef out = true
   /\ snd (simulate d r delta) = None
   /\ playerHits out delta2 = false)
  /\ (aiHits d r delta = true ->
      0 < V3.z (velRef out)
      /\ V3.z (ballRef out) = AI_Z + PADDLE_D / 2 + BALL_R
      /\ firstHitRef out = true
      /\ snd (simulate d r delta) = None
      /\ aiHits d2 out delta2 = false).
Proof.
  intros out. split.
  - intros Hp.
    pose proof (playerContact_vz _ _ _ Hp) as Hz.
    set (v := playerDeflect (fst (kinematics r delta))
                (snd (kinematics r delta)) (playerMove r)).
    assert (Hl : 0 < V3.length v) by now apply playerDeflect_length.
    assert (Hg : 0 < 1.05) by lra.
    destruct (hitSpeed_scales d 1.05 (firstHitRef r) v Hg Hl) as (k & Hk & E).
    assert (Hv : V3.z (velRef out) < 0).
    { subst out. rewrite simulate_velRef, (afterAI_player d r delta Hp).
      fold v. rewrite E. simpl. rewrite Rabs_pos_eq by lra. nra. }
    assert (Hb : ballRef out
                 = V3.setZ (fst (kinematics r delta))
                     (PLAYER_Z - PADDLE_D / 2 - BALL_R))
      by (subst out; apply player_hit_out, Hp).
    split; [exact Hv |]. split; [now rewrite Hb |].
    split; [subst out; simpl; rewrite Hp; now rewrite orb_true_r |].
    split.
    + unfold simulate. simpl. rewrite (player_hit_out d r delta Hp).
      unfold scoreTest. simpl.
      replace (Rltb _ _) with false
        by (symmetry; apply Rltb_false; consts; lra).
      replace (Rltb _ _) with false
        by (symmetry; apply Rltb_false; consts; lra).
      reflexivity.
    + unfold playerHits, playerContact. rewrite kinematics_vz.
      replace (Rltb 0 (V3.z (velRef out))) with false
        by (symmetry; apply Rltb_false; lra).
      reflexivity.
  - intros Ha. destruct (afterAI_ai d r delta Ha) as [Hp Hai].
    pose proof (aiContact_vz _ _ _ Ha) as Hz.
    set (v := aiDeflect (fst (afterPlayer d r delta))
                (snd (afterPlayer d r delta)) (aiMove d r delta)) in *.
    assert (Hl : 0 < V3.length v) by now apply aiDeflect_length.
    assert (Hg : 0 < 1.03) by lra.
    destruct (hitSpeed_scales d 1.03 (firstHitRef r) v Hg Hl) as (k & Hk & E).
    assert (Hv : 0 < V3.z (velRef out)).
    { subst out. rewrite simulate_velRef, Hai. rewrite E. simpl.
      rewrite Rabs_left by lra. nra. }
    assert (Hb : ballRef out
                 = V3.setZ (fst (kinematics r delta))
                     (AI_Z + PADDLE_D / 2 + BALL_R))
      by (subst out; apply ai_hit_out, Ha).
    split; [exact Hv |]. split; [now rewrite Hb |].
    split; [subst out; simpl; rewrite Ha; now rewrite orb_true_r |].
    split.
    + unfold simulate. simpl. rewrite (ai_hit_out d r delta Ha).
      unfold scoreTest. simpl.
      replace (Rltb _ _) with false
        by (symmetry; apply Rltb_false; consts; lra).
      replace (Rltb _ _) with false
        by (symmetry; apply Rltb_false; consts; lra).
      reflexivity.
    + destruct (playerHits out delta2) eqn:Hp2.
      * apply contacts_exclusive, Hp2.
      * unfold aiHits, afterPlayer. rewrite Hp2.
        unfold aiContact. rewrite kinematics_vz.
        replace (Rltb (V3.z (velRef out)) 0) with false
          by (symmetry; apply Rltb_false; lra).
        reflexivity.
Qed.

Lemma after_paddle_hit_witness :
  playerHits serveRefs 0.016 = true
  /\ V3.z (velRef (fst (simulate easy serveRefs 0.016))) < 0
  /\ playerHits (fst (simulate easy serveRefs 0.016)) 0.05 = false.
Proof.
  split; [exact serve_playerHits |].
  destruct (after_paddle_hit easy easy serveRefs 0.016 0.05) as [Hp _].
  destruct (Hp serve_playerHits) as (Hv & _ & _ & _ & Hn).
  split; [exact Hv | exact Hn].
Defined.

Lemma contact_offset (pos vel : vec3) (px : R) :
  playerContact pos vel px = true -> Rabs (V3.x pos - px) < 0.75.
Proof.
  unfold playerContact. intros H. apply andb4 in H.
  destruct H as (_ & _ & _ & H). apply Rltb_true in H. consts. lra.
Qed.

Lemma contact_offset_ai (pos vel : vec3) (ax : R) :
  aiContact pos vel ax = true -> Rabs (V3.x pos - ax) < 0.75.
Proof.
  unfold aiContact. intros H. apply andb4 in H.
  destruct H as (_ & _ & _ & H). apply Rltb_true in H. consts. lra.
Qed.

(** X7. The angle rule.  When the player's paddle is hit at horizontal
    offset [off] from its centre (less than 0.75 in size), the depth
    velocity is inverted and the horizontal velocity gains [5 * off], less
    than 3.75 in size; at the AI's paddle it gains [10 / 3 * off], less
    than 2.5 in size.  The speed branch then only multiplies the velocity
    by a positive number, first hit or not. *)
Theorem paddle_deflection (d : Difficulty) (r : Refs) (delta : R) :
  let k := kinematics r delta in
  let p := afterPlayer d r delta in
  let out := fst (simulate d r delta) in
  (playerHits r delta = true ->
   let off := V3.x (fst k) - playerMove r in
   let v := playerDeflect (fst k) (snd k) (playerMove r) in
   Rabs off < 0.75
   /\ V3.x v = V3.x (snd k) + 5 * off
   /\ Rabs (5 * off) < 3.75
   /\ V3.y v = V3.y (velRef r)
   /\ V3.z v = - V3.z (velRef r)
   /\ exists c, 0 < c /\ velRef out = V3.multiplyScalar v c)
  /\ (aiHits d r delta = true ->
      let off := V3.x (fst k) - aiMove d r delta in
      let v := aiDeflect (fst p) (snd p) (aiMove d r delta) in
      Rabs off < 0.75
      /\ V3.x v = V3.x (snd k) + 10 / 3 * off
      /\ Rabs (10 / 3 * off) < 2.5
      /\ V3.y v = V3.y (velRef r)
      /\ V3.z v = - V3.z (velRef r)
      /\ exists c, 0 < c /\ velRef out = V3.multiplyScalar v c).
Proof.
  intros k p out. split.
  - intros Hp off v.
    pose proof (playerContact_vz _ _ _ Hp) as Hz.
    pose proof (contact_offset _ _ _ Hp) as Ho. fold k off in Ho.
    rewrite kinematics_vz in Hz.
    split; [exact Ho |]. split.
    { subst v off k. simpl. consts. lra. }
    split.
    { rewrite Rabs_mult, (Rabs_pos_eq 5) by lra. lra. }
    split; [subst v k; simpl; apply kinematics_y |].
    split.
    { subst v k. simpl. rewrite kinematics_vz, Rabs_pos_eq by lra.
      reflexivity. }
    assert (Hl : 0 < V3.length v).
    { subst v. apply playerDeflect_length. subst k.
      now rewrite kinematics_vz. }
    assert (Hg : 0 < 1.05) by lra.
    destruct (hitSpeed_scales d 1.05 (firstHitRef r) v Hg Hl) as (c & Hc & E).
    exists c. split; [exact Hc |].
    subst out. rewrite simulate_velRef, (afterAI_player d r delta Hp).
    exact E.
  - intros Ha off v.
    destruct (afterAI_ai d r delta Ha) as [Hp Hai].
    assert (Ep : p = k) by (subst p k; unfold afterPlayer; now rewrite Hp).
    pose proof (aiContact_vz _ _ _ Ha) as Hz.
    pose proof (contact_offset_ai _ _ _ Ha) as Ho.
    fold p in Hz, Ho. rewrite Ep in Hz, Ho. fold off in Ho.
    unfold k in Hz. rewrite kinematics_vz in Hz.
    split; [exact Ho |]. split.
    { subst v off. rewrite Ep. simpl. consts. lra. }
    split.
    { rewrite Rabs_mult, (Rabs_pos_eq (10 / 3)) by lra. lra. }
    split; [subst v; rewrite Ep; subst k; simpl; apply kinematics_y |].
    split.
    { subst v. rewrite Ep. subst k. simpl.
      rewrite kinematics_vz, Rabs_left by lra. reflexivity. }
    assert (Hl : 0 < V3.length v).
    { subst v. apply aiDeflect_length. rewrite Ep. subst k.
      now rewrite kinematics_vz. }
    assert (Hg : 0 < 1.03) by lra.
    destruct (hitSpeed_scales d 1.03 (firstHitRef r) v Hg Hl) as (c & Hc & E).
    exists c. split; [exact Hc |].
    subst out. rewrite simulate_velRef, Hai. exact E.
Qed.

Lemma paddle_deflection_witness :
  playerHits cornerRefs 0.02 = true
  /\ V3.x (playerDeflect (fst (kinematics cornerRefs 0.02))
                         (snd (kinematics cornerRefs 0.02))
                         (playerMove cornerRefs))
     = V3.x (snd (kinematics cornerRefs 0.02))
       + 5 * (V3.x (fst (kinematics cornerRefs 0.02)) - playerMove cornerRefs).
Proof.
  split; [exact corner_playerHits |].
  destruct (paddle_deflection easy cornerRefs 0.02) as [Hp _].
  destruct (Hp corner_playerHits) as (_ & Hx & _). exact Hx.
Defined.

(** ** The scoreboard *)

Lemma scoreInv_setPhase (p : Phase) (g : GameState) :
  scoreInv g -> p <> Won -> p <> BetweenPoints -> scoreInv (setPhase p g).
Proof.
  intros (H1 & H2 & H3 & _ & _) Hw Hb. unfold scoreInv. simpl.
  split; [exact H1 |]. split; [exact H2 |]. split; [exact H3 |].
  split; intros; contradiction.
Qed.

Lemma scoreInv_handleScore (w : World) (s : Side) :
  scoreInv (game w) -> scoreInv (game (handleScore w s)).
Proof.
  intros (H1 & H2 & H3 & H4 & H5). unfold handleScore, WIN_SCORE.
  destruct (7 <=? player (nextScores (scores (game w)) s))%nat eqn:E1;
    [apply Nat.leb_le in E1 | apply Nat.leb_gt in E1];
    [| destruct (7 <=? ai (nextScores (scores (game w)) s))%nat eqn:E2;
       [apply Nat.leb_le in E2 | apply Nat.leb_gt in E2]];
    unfold scoreInv; simpl in *.
  - repeat split; intros; try discriminate; lia.
  - repeat split; intros; try discriminate; lia.
  - assert (Hn : winner (game w) = None).
    { destruct (winner (game w)) as [[|] |] eqn:Ew; [| | reflexivity].
      - specialize (H2 eq_refl). destruct s; lia.
      - destruct (H3 eq_refl). destruct s; lia. }
    rewrite Hn. repeat split; intros; try discriminate; lia.
Qed.

Lemma useFrame_game (w : World) (delta : R) :
  (frameSignal w delta = None /\ game (useFrame w delta) = game w)
  \/ (exists s, frameSignal w delta = Some s
                /\ game (useFrame w delta)
                   = game (handleScore
                             (with_scored true
                                (with_refs
                                   (fst (simulate (props_difficulty (scene w))
                                           (refs w) delta)) w)) s)).
Proof.
  destruct (frameSignal w delta) as [s |] eqn:E.
  - right. exists s. split; [reflexivity |].
    now destruct (useFrame_signal w delta s E) as (_ & _ & ->).
  - left. split; [reflexivity |].
    unfold frameSignal, useFrame in *.
    destruct (_ || _); [reflexivity |].
    destruct (simulate (props_difficulty (scene w)) (refs w) delta)
      as [r' sig].
    simpl in E. subst sig. reflexivity.
Qed.

Lemma click_game (w : World) (b : Button) :
  game (click w b) = game w
  \/ (exists p, game (click w b) = setPhase p (game w)
                /\ (p = Start \/ p = Rules \/ p = DifficultySelect)).
Proof.
  unfold click.
  destruct (props_phase (scene w)), b; simpl;
    try (now left);
    right; eexists; (split; [reflexivity | tauto]).
Qed.

Lemma step_scoreInv (w : World) (e : Event) :
  scoreInv (game w) -> scoreInv (game (step w e)).
Proof.
  intros I. destruct e as [delta | | nx ny | b | d u | u]; simpl.
  - destruct (useFrame_game w delta) as [[_ ->] | (s & _ & ->)];
      [exact I |].
    now apply scoreInv_handleScore.
  - exact I.
  - exact I.
  - destruct (click_game w b) as [-> | (p & -> & Hp)]; [exact I |].
    apply scoreInv_setPhase; [exact I | |];
      destruct Hp as [-> | [-> | ->]]; discriminate.
  - destruct (props_phase (scene w)); try exact I.
    unfold scoreInv. simpl. repeat split; intros; try discriminate; lia.
  - destruct (timers w); [exact I |]. simpl.
    apply scoreInv_setPhase; [exact I | |]; discriminate.
Qed.

(** X8. In every reachable state the recorded winner agrees with the
    counters: no winner is recorded exactly while both counters are below 7
    (so at most 12 points are on the board), a recorded winner has at least
    7 points, the AI is recorded only while the player has fewer than 7,
    the phase Won always comes with a recorded winner (the condition of the
    win overlay), and BetweenPoints only occurs in an undecided match. *)
Theorem winner_matches_scores (w : World) :
  reachable w ->
  let g := game w in
  ((winner g = None <-> player (scores g) < 7 /\ ai (scores g) < 7)
   /\ (winner g = None -> player (scores g) + ai (scores g) <= 12)
   /\ (winner g = Some Player -> 7 <= player (scores g))
   /\ (winner g = Some AI -> 7 <= ai (scores g) /\ player (scores g) < 7)
   /\ (phase g = Won -> exists s, winner g = Some s)
   /\ (phase g = BetweenPoints -> winner g = None))%nat.
Proof.
  intros Hr g.
  assert (I : scoreInv g).
  { subst g. induction Hr as [| w e _ IH _].
    - unfold scoreInv. simpl. repeat split; intros; try discriminate; lia.
    - now apply step_scoreInv. }
  destruct I as (H1 & H2 & H3 & H4 & H5).
  split; [split; [exact H1 |] |].
  - intros [Hp Ha].
    destruct (winner g) as [[|] |] eqn:Ew; [| | reflexivity].
    + specialize (H2 eq_refl). lia.
    + destruct (H3 eq_refl). lia.
  - split; [intros Hn; destruct (H1 Hn); lia |].
    split; [exact H2 |]. split; [exact H3 |]. split.
    + intros Hw. specialize (H4 Hw).
      destruct (winner g) as [s |]; [now exists s | contradiction].
    + intros Hb. apply H5, Hb.
Qed.

Lemma winner_matches_scores_witness :
  reachable (run initial abandon)
  /\ winner (game (run initial abandon)) = None
  /\ (player (scores (game (run initial abandon)))
      + ai (scores (game (run initial abandon))) <= 12)%nat.
Proof.
  assert (H : reachable (run initial abandon))
    by (apply reachable_run; [apply reach_initial | apply abandon_admissible]).
  assert (Hn : winner (game (run initial abandon)) = None)
    by (rewrite abandon_run; reflexivity).
  split; [exact H |]. split; [exact Hn |].
  destruct (winner_matches_scores (run initial abandon) H) as (_ & Hs & _).
  exact (Hs Hn).
Defined.

Lemma tally_cons (s t : Side) (l : list Side) :
  tally s (t :: l) = ((if Side_eqb s t then 1 else 0) + tally s l)%nat.
Proof. unfold tally. simpl. now destruct (Side_eqb s t). Qed.

Lemma step_scores (w : World) (e : Event) :
  match e with PickTier _ _ => False | _ => True end ->
  scores (game (step w e))
  = match e with
    | Frame delta =>
        match frameSignal w delta with
        | Some s => nextScores (scores (game w)) s
        | None => scores (game w)
        end
    | _ => scores (game w)
    end.
Proof.
  intros He. destruct e as [delta | | nx ny | b | d u | u]; simpl;
    try reflexivity; try contradiction.
  - destruct (useFrame_game w delta) as [[-> ->] | (s & -> & ->)];
      [reflexivity |].
    exact (proj1 (handleScore_game
                    (with_scored true
                       (with_refs
                          (fst (simulate (props_difficulty (scene w))
                                  (refs w) delta)) w)) s)).
  - destruct (click_game w b) as [-> | (p & -> & _)]; reflexivity.
  - destruct (timers w); reflexivity.
Qed.

(** X9. The scoreboard is the tally of the scoring signals: along any run
    of events in which no new match is started, each counter ends at its
    value before the run plus the number of frames that signalled a score
    for that side. *)
Theorem scoreboard_is_tally (w : World) (es : list Event) :
  noRestart es ->
  (player (scores (game (run w es)))
   = player (scores (game w)) + tally Player (signals w es)
   /\ ai (scores (game (run w es)))
      = ai (scores (game w)) + tally AI (signals w es))%nat.
Proof.
  revert w. induction es as [| e es IH]; intros w Hn.
  - simpl. unfold tally. simpl. lia.
  - inversion Hn as [| e' es' He Hes]; subst.
    specialize (IH (step w e) Hes). destruct IH as [IHp IHa].
    pose proof (step_scores w e He) as Hs.
    cbn [run fold_left] in *.
    change (fold_left step es (step w e)) with (run (step w e) es).
    rewrite IHp, IHa, Hs.
    destruct e as [delta | | nx ny | b | d u | u]; cbn [signals];
      try (split; reflexivity); try contradiction.
    destruct (frameSignal w delta) as [[|] |];
      rewrite ?tally_cons; simpl; lia.
Qed.

Lemma scoreboard_is_tally_witness :
  noRestart [Frame 0.02; Render; Frame 0.02]
  /\ ai (scores (game (run matchPoint [Frame 0.02; Render; Frame 0.02])))
     = (6 + tally AI (signals matchPoint [Frame 0.02; Render; Frame 0.02]))%nat.
Proof.
  assert (H : noRestart [Frame 0.02; Render; Frame 0.02])
    by (repeat constructor).
  split; [exact H |].
  exact (proj2 (scoreboard_is_tally matchPoint _ H)).
Defined.

(** ** Rendering and navigation *)

Lemma Phase_eqb_neq (p q : Phase) : Phase_eqb p q = false <-> p <> q.
Proof. destruct p, q; simpl; split; intros; congruence. Qed.

Lemma render_prevPhase (w : World) :
  prevPhase (scene (render w)) = phase (game w)
  /\ props_phase (scene (render w)) = phase (game w)
  /\ props_difficulty (scene (render w)) = difficulty (game w).
Proof.
  unfold render. simpl.
  destruct (Phase_eqb (prevPhase (scene w)) (phase (game w))) eqn:E; simpl;
    [apply Phase_eqb_eq in E |]; auto.
Qed.

(** X10. The body of [GameScene] writes its refs while it renders, and is
    idempotent all the same: run again with the same props, any number of
    times, it leaves the refs as the first run left them, so a repeated
    render does not clear [scoredRef] a second time.  After a run
    [prevPhase] is the phase prop, and a run never sets [scoredRef]. *)
Theorem scene_body_idempotent (p : Phase) (d : Difficulty) (sc : Scene)
  (n : nat) :
  gameSceneBody p d (gameSceneBody p d sc) = gameSceneBody p d sc
  /\ Nat.iter (S n) (gameSceneBody p d) sc = gameSceneBody p d sc
  /\ prevPhase (gameSceneBody p d sc) = p
  /\ (scoredRef (gameSceneBody p d sc) = true -> scoredRef sc = true).
Proof.
  assert (Hp : forall sc', prevPhase (gameSceneBody p d sc') = p).
  { intros sc'. unfold gameSceneBody. simpl.
    destruct (Phase_eqb (prevPhase sc') p) eqn:E; simpl;
      [now apply Phase_eqb_eq in E | reflexivity]. }
  assert (Hi : forall sc', gameSceneBody p d (gameSceneBody p d sc')
                           = gameSceneBody p d sc').
  { intros sc'. unfold gameSceneBody at 1. rewrite Hp, Phase_eqb_refl.
    simpl. unfold gameSceneBody.
    destruct (Phase_eqb (prevPhase sc') p) eqn:E; simpl; [| reflexivity].
    apply Phase_eqb_eq in E. now rewrite E. }
  split; [apply Hi |]. split.
  - induction n as [| n IH]; [reflexivity |].
    change (Nat.iter (S (S n)) (gameSceneBody p d) sc)
      with (gameSceneBody p d (Nat.iter (S n) (gameSceneBody p d) sc)).
    rewrite IH. apply Hi.
  - split; [apply Hp |].
    unfold gameSceneBody. simpl. destruct (_ && _); [discriminate | auto].
Qed.

(** The scene a render leaves is the body run on the state cells. *)
Lemma render_scene (w : World) :
  scene (render w)
  = gameSceneBody (phase (game w)) (difficulty (game w)) (scene w).
Proof. reflexivity. Qed.

Lemma handleScore_timers (w : World) (s : Side) :
  exists a, timers (handleScore w s) = timers w ++ a
            /\ (List.length a <= 1)%nat.
Proof.
  unfold handleScore.
  destruct (_ <=? _)%nat;
    [exists []; simpl; split; [now rewrite app_nil_r | lia] |].
  destruct (_ <=? _)%nat;
    [exists []; simpl; split; [now rewrite app_nil_r | lia] |].
  eexists. split; [reflexivity | simpl; lia].
Qed.

Lemma useFrame_quiet_timers (w : World) (delta : R) :
  frameSignal w delta = None -> timers (useFrame w delta) = timers w.
Proof.
  unfold frameSignal, useFrame. destruct (_ || _); [reflexivity |].
  destruct (simulate (props_difficulty (scene w)) (refs w) delta)
    as [r' sig].
  simpl. intros ->. reflexivity.
Qed.

Lemma step_keeps_timers (w : World) (e : Event) :
  match e with TimerFire _ => False | _ => True end ->
  exists a, timers (step w e) = timers w ++ a
            /\ (List.length a <= List.length (signals w [e]))%nat.
Proof.
  intros He. destruct e as [delta | | nx ny | b | d u | u];
    try contradiction; cbn [step signals].
  - destruct (frameSignal w delta) as [s |] eqn:E.
    + destruct (useFrame_signal w delta s E) as (_ & _ & ->).
      destruct (handleScore_timers
                  (with_scored true
                     (with_refs
                        (fst (simulate (props_difficulty (scene w)) (refs w)
                                delta)) w)) s) as (a & Ea & La).
      exists a. rewrite Ea. split; [reflexivity | simpl; lia].
    + exists []. rewrite (useFrame_quiet_timers w delta E), app_nil_r.
      split; [reflexivity | simpl; lia].
  - exists []. simpl. rewrite app_nil_r. split; [reflexivity | lia].
  - exists []. simpl. rewrite app_nil_r. split; [reflexivity | lia].
  - exists []. rewrite click_timers, app_nil_r.
    split; [reflexivity | simpl; lia].
  - exists []. rewrite app_nil_r.
    split; [destruct (props_phase (scene w)); reflexivity | simpl; lia].
Qed.

Lemma signals_cons_length (w : World) (e : Event) (es : list Event) :
  List.length (signals w (e :: es))
  = (List.length (signals w [e]) + List.length (signals (step w e) es))%nat.
Proof.
  destruct e; cbn [signals]; try reflexivity.
  destruct (frameSignal w delta); reflexivity.
Qed.

(** X11. Nothing cancels a pending reset.  Along any run of events in
    which no timer fires, whatever is clicked (the MENU button and the tier
    buttons included), rendered or simulated, every reset that was pending
    at the start is still pending at the end, in the same order; new ones
    are only added behind them, at most one for each score signalled. *)
Theorem pending_resets_never_cancelled (w : World) (es : list Event) :
  noTimerFire es ->
  exists added,
    timers (run w es) = timers w ++ added
    /\ (List.length added <= List.length (signals w es))%nat.
Proof.
  revert w. induction es as [| e es IH]; intros w Hn.
  - exists []. simpl. now rewrite app_nil_r.
  - inversion Hn as [| e' es' He Hes]; subst.
    destruct (step_keeps_timers w e He) as (a & Ea & La).
    destruct (IH (step w e) Hes) as (a' & Ea' & La').
    exists (a ++ a'). split.
    + cbn [run fold_left].
      change (fold_left step es (step w e)) with (run (step w e) es).
      rewrite Ea', Ea. now rewrite app_assoc.
    + rewrite length_app, signals_cons_length. lia.
Qed.

Lemma pending_resets_never_cancelled_witness :
  noTimerFire [Click Menu; Render; Click Play; Render; PickTier hard 0.3]
  /\ exists added,
       timers (run abandoned
                 [Click Menu; Render; Click Play; Render; PickTier hard 0.3])
       = timers abandoned ++ added.
Proof.
  assert (H : noTimerFire
                [Click Menu; Render; Click Play; Render; PickTier hard 0.3])
    by (repeat constructor).
  split; [exact H |].
  destruct (pending_resets_never_cancelled abandoned _ H) as (a & Ea & _).
  now exists a.
Defined.

(** X12. Play always starts with a serve.  Whatever event takes the phase
    from another phase to Playing, it leaves the ball at the centre of the
    table at its resting height, travelling at the launch speed with no
    vertical component, and the first-hit flag cleared; and that event is
    the choice of a tier or a timer firing. *)
Theorem play_starts_with_serve (w : World) (e : Event) :
  phase (game w) <> Playing ->
  phase (game (step w e)) = Playing ->
  ballRef (refs (step w e)) = V3.mk 0 BALL_Y 0
  /\ V3.length (velRef (refs (step w e))) = BALL_LAUNCH_SPEED
  /\ V3.y (velRef (refs (step w e))) = 0
  /\ firstHitRef (refs (step w e)) = false
  /\ ((exists d u, e = PickTier d u) \/ (exists u, e = TimerFire u)).
Proof.
  intros Hn Hp. destruct e as [delta | | nx ny | b | d u | u]; simpl in *.
  - exfalso.
    destruct (useFrame_game w delta) as [[_ E] | (s & _ & E)];
      rewrite E in Hp; [contradiction |].
    destruct (handleScore_phase
                (with_scored true
                   (with_refs
                      (fst (simulate (props_difficulty (scene w)) (refs w)
                              delta)) w)) s) as [H | H];
      rewrite H in Hp; discriminate.
  - contradiction.
  - contradiction.
  - exfalso.
    destruct (click_game w b) as [E | (p & E & Hq)]; rewrite E in Hp;
      [contradiction |].
    simpl in Hp. destruct Hq as [-> | [-> | ->]]; discriminate.
  - destruct (props_phase (scene w)); try contradiction.
    split; [reflexivity |].
    split; [exact (doReset_speed (refs w) u d true) |].
    repeat split; try reflexivity. left. now exists d, u.
  - destruct (timers w) as [| t ts]; [contradiction |].
    split; [reflexivity |].
    split;
      [exact (doReset_speed (refs w) u (timer_diff t)
                (timer_towardPlayer t)) |].
    repeat split; try reflexivity. right. now exists u.
Qed.

Lemma play_starts_with_serve_witness :
  phase (game abandoned) <> Playing
  /\ phase (game (step abandoned (TimerFire 0.5))) = Playing
  /\ ballRef (refs (step abandoned (TimerFire 0.5))) = V3.mk 0 BALL_Y 0.
Proof.
  assert (H1 : phase (game abandoned) <> Playing) by discriminate.
  assert (H2 : phase (game (step abandoned (TimerFire 0.5))) = Playing)
    by reflexivity.
  split; [exact H1 |]. split; [exact H2 |].
  exact (proj1 (play_starts_with_serve abandoned (TimerFire 0.5) H1 H2)).
Defined.

(** ** Audio cues *)

Lemma wall_cues (pos vel : vec3) :
  let cs := (if Rltb wallX (V3.x pos) then [(300, 0.05)] else [])
            ++ (if Rltb (V3.x (fst (wallRight (pos, vel)))) (- wallX)
                then [(300, 0.05)] else []) in
  (cs = [(300, 0.05)] /\ (wallX < V3.x pos \/ V3.x pos < - wallX))
  \/ (cs = [] /\ - wallX <= V3.x pos <= wallX).
Proof.
  pose proof wallX_pos as Hw. unfold wallRight. cbv zeta.
  destruct (Rltb wallX (V3.x pos)) eqn:E1.
  - apply Rltb_true in E1. simpl.
    replace (Rltb wallX (- wallX)) with false
      by (symmetry; apply Rltb_false; lra).
    left. split; [reflexivity | now left].
  - apply Rltb_false in E1. simpl.
    destruct (Rltb (V3.x pos) (- wallX)) eqn:E2.
    + apply Rltb_true in E2. left. split; [reflexivity | now right].
    + apply Rltb_false in E2. right. split; [reflexivity | lra].
Qed.

(** X13. A frame calls [beep] at most twice: at most once for the walls,
    with 300 Hz for 50 ms, exactly when the integrated position is beyond a
    wall, and after that at most once for a paddle, with 640 Hz at the
    player's and 520 Hz at the AI's, for 90 ms, exactly when that paddle is
    hit.  A frame that does not run (phase not Playing, or a score already
    signalled) calls it not at all. *)
Theorem frame_cues (w : World) (d : Difficulty) (r : Refs) (delta : R) :
  let moved := integrate (ballRef r) (velRef r) (Rmin delta 0.05) in
  (exists wall paddle,
     frameCues d r delta = wall ++ paddle
     /\ ((wall = [(300, 0.05)]
          /\ (wallX < V3.x moved \/ V3.x moved < - wallX))
         \/ (wall = [] /\ - wallX <= V3.x moved <= wallX))
     /\ ((paddle = [(640, 0.09)]
          /\ playerHits r delta = true /\ aiHits d r delta = false)
         \/ (paddle = [(520, 0.09)]
             /\ playerHits r delta = false /\ aiHits d r delta = true)
         \/ (paddle = []
             /\ playerHits r delta = false /\ aiHits d r delta = false)))
  /\ (List.length (frameCues d r delta) <= 2)%nat
  /\ (props_phase (scene w) <> Playing -> useFrameCues w delta = [])
  /\ (scoredRef (scene w) = true -> useFrameCues w delta = []).
Proof.
  intros moved.
  assert (E : exists wall paddle,
     frameCues d r delta = wall ++ paddle
     /\ ((wall = [(300, 0.05)]
          /\ (wallX < V3.x moved \/ V3.x moved < - wallX))
         \/ (wall = [] /\ - wallX <= V3.x moved <= wallX))
     /\ ((paddle = [(640, 0.09)]
          /\ playerHits r delta = true /\ aiHits d r delta = false)
         \/ (paddle = [(520, 0.09)]
             /\ playerHits r delta = false /\ aiHits d r delta = true)
         \/ (paddle = []
             /\ playerHits r delta = false /\ aiHits d r delta = false))).
  { unfold frameCues. fold moved.
    eexists. eexists. split; [rewrite app_assoc; reflexivity |].
    split; [exact (wall_cues moved (velRef r)) |].
    destruct (playerHits r delta) eqn:Hp.
    - rewrite (contacts_exclusive d r delta Hp). left. auto.
    - destruct (aiHits d r delta); [right; left | right; right]; auto. }
  split; [exact E |]. split.
  - destruct E as (wall & paddle & -> & Hw & Hp). rewrite length_app.
    destruct Hw as [[-> _] | [-> _]];
      destruct Hp as [[-> _] | [[-> _] | [-> _]]]; simpl; lia.
  - unfold useFrameCues. split.
    + intros H. apply Phase_eqb_neq in H. now rewrite H.
    + intros H. now rewrite H, orb_true_r.
Qed.

Lemma frame_cues_witness :
  scoredRef (scene (useFrame matchPoint 0.02)) = true
  /\ useFrameCues (useFrame matchPoint 0.02) 0.016 = [].
Proof.
  destruct matchPoint_after as [Hs _].
  split; [exact Hs |].
  destruct (frame_cues (useFrame matchPoint 0.02) easy
              (refs matchPoint) 0.016) as (_ & _ & _ & Hq).
  exact (Hq Hs).
Defined.

(** ** The pause between points *)

Lemma useFrame_timers (w : World) (delta : R) :
  (game (useFrame w delta) = game w /\ timers (useFrame w delta) = timers w)
  \/ (exists w1 s, useFrame w delta = handleScore w1 s
                   /\ timers w1 = timers w).
Proof.
  unfold useFrame. destruct (_ || _); [now left |].
  destruct (simulate (props_difficulty (scene w)) (refs w) delta)
    as [r' [s |]].
  - right. eexists. exists s. split; reflexivity.
  - now left.
Qed.

Lemma step_pause (w : World) (e : Event) :
  (phase (game w) = BetweenPoints -> timers w <> []) ->
  phase (game (step w e)) = BetweenPoints -> timers (step w e) <> [].
Proof.
  intros I. destruct e as [delta | | nx ny | b | d u | u]; simpl.
  - destruct (useFrame_timers w delta) as [[-> ->] | (w1 & s & -> & _)];
      [exact I |].
    intros H. rewrite (handleScore_between w1 s H).
    intros E. apply app_eq_nil in E. destruct E as [_ E]. discriminate.
  - exact I.
  - exact I.
  - rewrite click_timers.
    destruct (click_game w b) as [-> | (p & -> & Hp)]; [exact I |].
    simpl. destruct Hp as [-> | [-> | ->]]; discriminate.
  - destruct (props_phase (scene w)); try exact I; discriminate.
  - destruct (timers w) as [| t ts] eqn:Et; [| discriminate].
    intros H. specialize (I H). congruence.
Qed.

(** X14. The pause between points always has an end: in every reachable
    state whose phase is BetweenPoints a deferred reset is pending, and when
    it fires the phase is Playing and the ball is at the centre. *)
Theorem pause_has_pending_reset (w : World) (u : R) :
  reachable w -> phase (game w) = BetweenPoints ->
  (exists t ts, timers w = t :: ts)
  /\ phase (game (step w (TimerFire u))) = Playing
  /\ ballRef (refs (step w (TimerFire u))) = V3.mk 0 BALL_Y 0.
Proof.
  intros Hr Hb.
  assert (I : phase (game w) = BetweenPoints -> timers w <> []).
  { clear Hb. induction Hr as [| w e _ IH _].
    - discriminate.
    - now apply step_pause. }
  specialize (I Hb).
  destruct (timers w) as [| t ts] eqn:Et; [contradiction |].
  split; [now exists t, ts |].
  destruct (timer_fires_anyway w t ts u Et) as (Hp & Hball & _).
  split; assumption.
Qed.

Lemma pause_has_pending_reset_witness :
  reachable (useFrame (flying 2.4 5.425) 0.05)
  /\ phase (game (useFrame (flying 2.4 5.425) 0.05)) = BetweenPoints
  /\ phase (game (step (useFrame (flying 2.4 5.425) 0.05) (TimerFire 0.5)))
     = Playing.
Proof.
  assert (Hf : reachable (flying 2.4 5.425)).
  { replace (flying 2.4 5.425)
      with (run initial (opening ++ [Pointer 1 0] ++ repeat (Frame 0.05) 31)).
    - apply reachable_run; [apply reach_initial |].
      unfold opening. simpl.
      repeat (apply Forall_cons; [simpl; try exact I; lra |]).
      apply Forall_nil.
    - rewrite !run_app.
      change (run initial opening) with kickoff.
      change (run kickoff [Pointer 1 0]) with (step kickoff (Pointer 1 0)).
      rewrite kickoff_flying.
      change (repeat (Frame 0.05) 31)
        with ([Frame 0.05] ++ repeat (Frame 0.05) 30).
      rewrite run_app.
      change (run (flying 0 0) [Frame 0.05])
        with (useFrame (flying 0 0) 0.05).
      rewrite flying_step by lra.
      rewrite flying_run by (simpl; lra).
      apply flying_ext; [reflexivity | simpl; lra]. }
  assert (Hr : reachable (useFrame (flying 2.4 5.425) 0.05)).
  { apply (reach_step _ (Frame 0.05) Hf). simpl. lra. }
  assert (Hb : phase (game (useFrame (flying 2.4 5.425) 0.05))
               = BetweenPoints).
  { rewrite flying_score by lra. reflexivity. }
  split; [exact Hr |]. split; [exact Hb |].
  destruct (pause_has_pending_reset _ 0.5 Hr Hb) as (_ & Hp & _).
  exact Hp.
Defined.

(** ** The ball never stalls *)

Lemma simulate_vz (d : Difficulty) (r : Refs) (delta : R) :
  V3.z (velRef r) <> 0 -> V3.z (velRef (fst (simulate d r delta))) <> 0.
Proof.
  intros Hz. rewrite simulate_velRef.
  destruct (playerHits r delta) eqn:Hp.
  - rewrite (afterAI_player d r delta Hp).
    pose proof (playerContact_vz _ _ _ Hp) as Hv.
    set (v := playerDeflect _ _ _).
    assert (Hl : 0 < V3.length v) by now apply playerDeflect_length.
    assert (Hg : 0 < 1.05) by lra.
    destruct (hitSpeed_scales d 1.05 (firstHitRef r) v Hg Hl) as (k & Hk & ->).
    subst v. simpl. rewrite Rabs_pos_eq by lra. nra.
  - destruct (aiHits d r delta) eqn:Ha.
    + destruct (afterAI_ai d r delta Ha) as [_ ->].
      pose proof (aiContact_vz _ _ _ Ha) as Hv.
      set (v := aiDeflect _ _ _).
      assert (Hl : 0 < V3.length v) by now apply aiDeflect_length.
      assert (Hg : 0 < 1.03) by lra.
      destruct (hitSpeed_scales d 1.03 (firstHitRef r) v Hg Hl)
        as (k & Hk & ->).
      subst v. simpl. rewrite Rabs_left by lra. nra.
    + rewrite (afterAI_no_contact d r delta Hp Ha), kinematics_vz. exact Hz.
Qed.

Lemma doReset_vz (r : Refs) (u : R) (d : Difficulty) (tp : bool) :
  0 <= u < 1 -> V3.z (velRef (doReset r u d tp)) <> 0.
Proof.
  intros Hu. pose proof (launchAngle_cos u Hu) as Hc.
  unfold doReset. simpl. consts. destruct tp; nra.
Qed.

(** X15. The ball never stalls in depth: in every reachable state the depth
    component of its velocity is not zero, so its speed is positive and it
    keeps travelling toward one of the two ends. *)
Theorem ball_never_stalls (w : World) :
  reachable w ->
  V3.z (velRef (refs w)) <> 0 /\ 0 < V3.length (velRef (refs w)).
Proof.
  intros Hr.
  assert (Hz : V3.z (velRef (refs w)) <> 0).
  { induction Hr as [| w e _ IH Ha].
    - simpl. consts. lra.
    - destruct e as [delta | | nx ny | b | d u | u]; simpl in *.
      + destruct (useFrame_refs w delta) as [-> | ->];
          [exact IH | now apply simulate_vz].
      + exact IH.
      + exact IH.
      + now rewrite click_refs.
      + destruct (props_phase (scene w)); try exact IH.
        exact (doReset_vz (refs w) u d true Ha).
      + destruct (timers w) as [| t ts]; [exact IH |].
        exact (doReset_vz (refs w) u (timer_diff t)
                 (timer_towardPlayer t) Ha). }
  split; [exact Hz |].
  pose proof (length_ge_z (velRef (refs w))) as Hl.
  pose proof (Rabs_pos_lt _ Hz). lra.
Qed.

Lemma ball_never_stalls_witness :
  reachable (run initial straightRally)
  /\ V3.z (velRef (refs (run initial straightRally))) <> 0.
Proof.
  assert (H : reachable (run initial straightRally))
    by (apply reachable_run;
        [apply reach_initial | apply straightRally_admissible]).
  split; [exact H |].
  exact (proj1 (ball_never_stalls (run initial straightRally) H)).
Defined.

(** ** Left and right *)

Lemma vec3_ext (a b c a' b' c' : R) :
  a = a' -> b = b' -> c = c' -> V3.mk a b c = V3.mk a' b' c'.
Proof. now intros -> -> ->. Qed.

Lemma clampOffset_opp (m a : R) :
  0 <= m -> clampOffset m (- a) = - clampOffset m a.
Proof.
  intros Hm. unfold clampOffset, Rmax, Rmin.
  repeat destruct (Rle_dec _ _); lra.
Qed.

Lemma Rltb_opp (a b : R) : Rltb (- a) (- b) = Rltb b a.
Proof.
  destruct (Rltb b a) eqn:E.
  - apply Rltb_true in E. apply Rltb_true. lra.
  - apply Rltb_false in E. apply Rltb_false. lra.
Qed.

Lemma length_mirror (v : vec3) : V3.length (mirrorV v) = V3.length v.
Proof.
  unfold V3.length, V3.lengthSq, mirrorV. simpl. f_equal. ring.
Qed.

Lemma wallReflect_mirror (pos vel : vec3) :
  wallReflect (mirrorV pos, mirrorV vel)
  = (mirrorV (fst (wallReflect (pos, vel))),
     mirrorV (snd (wallReflect (pos, vel)))).
Proof.
  pose proof wallX_pos as Hw.
  destruct (wallReflect_cases pos vel) as [[Hc E] | [[Hc E] | [Hc E]]];
    destruct (wallReflect_cases (mirrorV pos) (mirrorV vel))
      as [[Hc' E'] | [[Hc' E'] | [Hc' E']]];
    simpl in Hc'; try lra; rewrite E, E'; unfold mirrorV, V3.setX; simpl;
    try reflexivity;
    f_equal; apply vec3_ext; try reflexivity; try ring;
    rewrite ?Rabs_Ropp; ring.
Qed.

Lemma kinematics_mirror (r : Refs) (delta : R) :
  kinematics (mirrorRefs r) delta
  = (mirrorV (fst (kinematics r delta)), mirrorV (snd (kinematics r delta))).
Proof.
  unfold kinematics.
  replace (integrate (ballRef (mirrorRefs r)) (velRef (mirrorRefs r))
             (Rmin delta 0.05))
    with (mirrorV (integrate (ballRef r) (velRef r) (Rmin delta 0.05)))
    by (unfold integrate, mirrorV; simpl; apply vec3_ext;
        try reflexivity; ring).
  apply wallReflect_mirror.
Qed.

Lemma playerMove_mirror (r : Refs) :
  playerMove (mirrorRefs r) = - playerMove r.
Proof.
  unfold playerMove. simpl.
  replace (- fst (ndcRef r) * (TABLE_W / 2) * 1.1)
    with (- (fst (ndcRef r) * (TABLE_W / 2) * 1.1)) by ring.
  apply clampOffset_opp. consts. lra.
Qed.

Lemma aiPursuit_opp (g b a : R) :
  aiPursuit g (- b) (- a) = - aiPursuit g b a.
Proof.
  unfold aiPursuit.
  replace (- a + (- b - - a) * g) with (- (a + (b - a) * g)) by ring.
  apply clampOffset_opp. consts. lra.
Qed.

Lemma aiMove_mirror (d : Difficulty) (r : Refs) (delta : R) :
  aiMove d (mirrorRefs r) delta = - aiMove d r delta.
Proof.
  unfold aiMove. rewrite kinematics_mirror. simpl. apply aiPursuit_opp.
Qed.

Lemma Rabs_mirror (a b : R) : Rabs (- a - - b) = Rabs (a - b).
Proof.
  replace (- a - - b) with (- (a - b)) by ring. apply Rabs_Ropp.
Qed.

Lemma playerContact_mirror (pos vel : vec3) (px : R) :
  playerContact (mirrorV pos) (mirrorV vel) (- px) = playerContact pos vel px.
Proof. unfold playerContact. simpl. now rewrite Rabs_mirror. Qed.

Lemma aiContact_mirror (pos vel : vec3) (ax : R) :
  aiContact (mirrorV pos) (mirrorV vel) (- ax) = aiContact pos vel ax.
Proof. unfold aiContact. simpl. now rewrite Rabs_mirror. Qed.

Lemma multiplyScalar_mirror (v : vec3) (k : R) :
  V3.multiplyScalar (mirrorV v) k = mirrorV (V3.multiplyScalar v k).
Proof.
  unfold V3.multiplyScalar, mirrorV. simpl.
  apply vec3_ext; try reflexivity. ring.
Qed.

Lemma hitSpeed_mirror (d : Difficulty) (g : R) (fh : bool) (v : vec3) :
  hitSpeed d g fh (mirrorV v) = mirrorV (hitSpeed d g fh v).
Proof.
  unfold hitSpeed, V3.normalize, V3.divideScalar.
  rewrite length_mirror.
  destruct (negb fh).
  - now rewrite !multiplyScalar_mirror.
  - destruct (Rltb _ _); [apply multiplyScalar_mirror | reflexivity].
Qed.

Lemma playerHit_mirror (d : Difficulty) (px : R) (fh : bool)
  (pos vel : vec3) :
  playerHit d (- px) fh (mirrorV pos, mirrorV vel)
  = (mirrorV (fst (playerHit d px fh (pos, vel))),
     mirrorV (snd (playerHit d px fh (pos, vel)))).
Proof.
  unfold playerHit. simpl. f_equal.
  rewrite <- hitSpeed_mirror. f_equal.
  unfold playerDeflect, mirrorV. simpl.
  apply vec3_ext; try reflexivity. unfold Rdiv. ring.
Qed.

Lemma aiHit_mirror (d : Difficulty) (ax : R) (fh : bool) (pos vel : vec3) :
  aiHit d (- ax) fh (mirrorV pos, mirrorV vel)
  = (mirrorV (fst (aiHit d ax fh (pos, vel))),
     mirrorV (snd (aiHit d ax fh (pos, vel)))).
Proof.
  unfold aiHit. simpl. f_equal.
  rewrite <- hitSpeed_mirror. f_equal.
  unfold aiDeflect, mirrorV. simpl.
  apply vec3_ext; try reflexivity. unfold Rdiv. ring.
Qed.

Lemma playerHits_mirror (r : Refs) (delta : R) :
  playerHits (mirrorRefs r) delta = playerHits r delta.
Proof.
  unfold playerHits.
  rewrite kinematics_mirror, playerMove_mirror. simpl.
  apply playerContact_mirror.
Qed.

Lemma afterPlayer_mirror (d : Difficulty) (r : Refs) (delta : R) :
  afterPlayer d (mirrorRefs r) delta
  = (mirrorV (fst (afterPlayer d r delta)),
     mirrorV (snd (afterPlayer d r delta))).
Proof.
  unfold afterPlayer.
  rewrite playerHits_mirror, kinematics_mirror, playerMove_mirror.
  destruct (playerHits r delta); [| reflexivity].
  destruct (kinematics r delta) as [pos vel]. apply playerHit_mirror.
Qed.

Lemma aiHits_mirror (d : Difficulty) (r : Refs) (delta : R) :
  aiHits d (mirrorRefs r) delta = aiHits d r delta.
Proof.
  unfold aiHits.
  rewrite afterPlayer_mirror, aiMove_mirror. simpl.
  apply aiContact_mirror.
Qed.

Lemma afterAI_mirror (d : Difficulty) (r : Refs) (delta : R) :
  afterAI d (mirrorRefs r) delta
  = (mirrorV (fst (afterAI d r delta)), mirrorV (snd (afterAI d r delta))).
Proof.
  unfold afterAI.
  rewrite aiHits_mirror, afterPlayer_mirror, aiMove_mirror,
    playerHits_mirror.
  destruct (aiHits d r delta); [| reflexivity].
  destruct (afterPlayer d r delta) as [pos vel]. apply aiHit_mirror.
Qed.

Lemma frameCues_mirror (d : Difficulty) (r : Refs) (delta : R) :
  frameCues d (mirrorRefs r) delta = frameCues d r delta.
Proof.
  pose proof wallX_pos as Hw.
  unfold frameCues. rewrite playerHits_mirror, aiHits_mirror.
  rewrite !app_assoc. f_equal. f_equal.
  replace (integrate (ballRef (mirrorRefs r)) (velRef (mirrorRefs r))
             (Rmin delta 0.05))
    with (mirrorV (integrate (ballRef r) (velRef r) (Rmin delta 0.05)))
    by (unfold integrate, mirrorV; simpl; apply vec3_ext;
        try reflexivity; ring).
  set (moved := integrate (ballRef r) (velRef r) (Rmin delta 0.05)).
  destruct (wall_cues moved (velRef r)) as [[-> H] | [-> H]];
    destruct (wall_cues (mirrorV moved) (velRef (mirrorRefs r)))
      as [[-> H'] | [-> H']];
    try reflexivity; exfalso; unfold moved, mirrorV in *; simpl in *;
    [destruct H as [H | H]; lra | destruct H' as [H' | H']; lra].
Qed.

(** X16. The table has no preferred side.  A frame run on the mirror image
    of a state (pointer, ball, velocity and paddles reflected left to right)
    gives the mirror image of what it gives on the state itself, with the
    same paddle contacts, the same scoring signal and the same cues. *)
Theorem frame_mirror_symmetry (d : Difficulty) (r : Refs) (delta : R) :
  simulate d (mirrorRefs r) delta
  = (mirrorRefs (fst (simulate d r delta)), snd (simulate d r delta))
  /\ playerHits (mirrorRefs r) delta = playerHits r delta
  /\ aiHits d (mirrorRefs r) delta = aiHits d r delta
  /\ frameCues d (mirrorRefs r) delta = frameCues d r delta
  /\ mirrorRefs (mirrorRefs r) = r.
Proof.
  split; [| split; [apply playerHits_mirror |
                    split; [apply aiHits_mirror |
                            split; [apply frameCues_mirror |]]]].
  - unfold simulate.
    rewrite afterAI_mirror, playerMove_mirror, aiMove_mirror,
      playerHits_mirror, aiHits_mirror.
    reflexivity.
  - destruct r as [[nx ny] [bx by0 bz] [vx vy vz] px ax fh].
    unfold mirrorRefs, mirrorV. simpl.
    rewrite !Ropp_involutive. reflexivity.
Qed.

(** ** The AI's reach *)

Lemma aiPursuit_step (g b a : R) :
  0 <= g <= 1 -> - maxAX <= a <= maxAX ->
  (a <= b -> a <= aiPursuit g b a <= b)
  /\ (b <= a -> b <= aiPursuit g b a <= a)
  /\ Rabs (aiPursuit g b a - a) <= g * Rabs (b - a).
Proof.
  intros Hg Ha. pose proof maxAX_pos as Hm.
  unfold aiPursuit, clampOffset, Rmax, Rmin.
  destruct (Rle_dec maxAX _); destruct (Rle_dec _ _);
    (split; [intros; nra | split; [intros; nra |]]);
    destruct (Rle_dec a b) as [Hab | Hab];
    try (rewrite (Rabs_pos_eq (b - a)) by lra; apply Rabs_le; nra);
    rewrite (Rabs_left1 (b - a)) by lra; apply Rabs_le; nra.
Qed.

(** X17. The AI's paddle has a speed limit.  In a frame that starts with
    the paddle inside its range, it ends between where it was and the
    ball's horizontal position at the end of the frame (which may lie
    outside the paddle's range), and it has moved by at most the tier's
    [lerp] times the gap between the two. *)
Theorem ai_speed_limit (d : Difficulty) (r : Refs) (delta : R) :
  - maxAX <= aiXRef r <= maxAX ->
  let out := fst (simulate d r delta) in
  let b := V3.x (ballRef out) in
  (aiXRef r <= b -> aiXRef r <= aiXRef out <= b)
  /\ (b <= aiXRef r -> b <= aiXRef out <= aiXRef r)
  /\ Rabs (aiXRef out - aiXRef r) <= lerp (DIFF d) * Rabs (b - aiXRef r).
Proof.
  intros Ha out b.
  assert (Eb : b = V3.x (fst (kinematics r delta)))
    by (subst b out; unfold simulate; simpl; apply afterAI_x).
  assert (Eo : aiXRef out
               = aiPursuit (lerp (DIFF d)) (V3.x (fst (kinematics r delta)))
                   (aiXRef r)) by reflexivity.
  rewrite Eo, Eb. apply aiPursuit_step; [| exact Ha].
  pose proof (lerp_range d). lra.
Qed.

Lemma ai_speed_limit_witness :
  - maxAX <= aiXRef cornerRefs <= maxAX
  /\ Rabs (aiXRef (fst (simulate easy cornerRefs 0.02)) - aiXRef cornerRefs)
     <= lerp (DIFF easy)
        * Rabs (V3.x (ballRef (fst (simulate easy cornerRefs 0.02)))
                - aiXRef cornerRefs).
Proof.
  assert (H : - maxAX <= aiXRef cornerRefs <= maxAX) by (simpl; consts; lra).
  split; [exact H |].
  exact (proj2 (proj2 (ai_speed_limit easy cornerRefs 0.02 H))).
Defined.

(** ** The serve *)

Lemma aiMissed_kinematics :
  kinematics (refs aiMissed) 0.02 = (V3.mk 2 BALL_Y (- 5.56), V3.mk 0 0 (- 8)).
Proof.
  unfold kinematics, wallReflect, wallLeft, wallRight, integrate. numbers.
Qed.

Lemma aiMissed_playerHits : playerHits (refs aiMissed) 0.02 = false.
Proof.
  unfold playerHits. rewrite aiMissed_kinematics.
  unfold playerContact. numbers.
Qed.

Lemma aiMissed_aiHits : aiHits easy (refs aiMissed) 0.02 = false.
Proof.
  unfold aiHits, afterPlayer.
  rewrite aiMissed_playerHits, aiMissed_kinematics.
  unfold aiContact. numbers.
Qed.

Lemma aiMissed_signal : frameSignal aiMissed 0.02 = Some Player.
Proof.
  unfold frameSignal. simpl negb. cbn [orb].
  change (props_difficulty (scene aiMissed)) with easy.
  destruct (simulate_free easy (refs aiMissed) 0.02
              aiMissed_playerHits aiMissed_aiHits) as (-> & _).
  rewrite aiMissed_kinematics. unfold scoreTest. numbers.
Qed.

Lemma aiMissed_between :
  phase (game (useFrame aiMissed 0.02)) = BetweenPoints.
Proof.
  destruct (useFrame_signal aiMissed 0.02 Player aiMissed_signal)
    as (_ & _ & ->).
  apply handleScore_game; simpl; lia.
Qed.

(** The depth velocity of a launch points where [towardPlayer] says. *)
Lemma doReset_direction (r : Refs) (u : R) (d : Difficulty) (tp : bool) :
  0 <= u < 1 ->
  if tp then 0 < V3.z (velRef (doReset r u d tp))
  else V3.z (velRef (doReset r u d tp)) < 0.
Proof.
  intros Hu. pose proof (launchAngle_cos u Hu) as Hc.
  unfold doReset. simpl. consts. destruct tp; nra.
Qed.

(** The reset a score schedules, once it has fired. *)
Lemma scheduled_serve (w : World) (scorer : Side) (u : R) :
  0 <= u < 1 ->
  phase (game (handleScore w scorer)) = BetweenPoints ->
  exists t',
    timers (handleScore w scorer) = timers w ++ [t']
    /\ ballRef (refs (fireTimer (handleScore w scorer) t' u))
       = V3.mk 0 BALL_Y 0
    /\ V3.length (velRef (refs (fireTimer (handleScore w scorer) t' u)))
       = BALL_LAUNCH_SPEED
    /\ firstHitRef (refs (fireTimer (handleScore w scorer) t' u)) = false
    /\ match scorer with
       | AI =>
           0 < V3.z (velRef (refs (fireTimer (handleScore w scorer) t' u)))
       | Player =>
           V3.z (velRef (refs (fireTimer (handleScore w scorer) t' u))) < 0
       end.
Proof.
  intros Hu Hb. eexists. split; [apply (handleScore_between w scorer Hb) |].
  split; [reflexivity |]. split; [apply doReset_speed |].
  split; [reflexivity |].
  unfold fireTimer. cbn [refs timer_towardPlayer timer_diff].
  destruct scorer.
  - exact (doReset_direction _ u _ false Hu).
  - exact (doReset_direction _ u _ true Hu).
Qed.

(** C7. [doReset] puts the ball at the centre of the table at its resting
    height, launches it at exactly 3.5 units per second at an angle
    [u / 2 - 0.25] from the depth axis, which ranges over [[-0.25, 0.25)] as
    the random draw [u] ranges over [[0, 1)], with the depth component
    pointing at the player (positive depth) when [towardPlayer] is set and
    at the AI (negative depth) otherwise, and clears the first-hit flag.
    [startGame] serves toward the player.  The reset a score schedules
    serves toward the side that conceded: toward the player after a point
    of the AI, toward the AI after a point of the player; so does the reset
    that fires after a frame has signalled the score. *)
Theorem reset_procedure (w : World) (u : R) (diff : Difficulty)
  (towardPlayer : bool) (scorer : Side) (t : Timer) (delta : R) :
  0 <= u < 1 ->
  let r' := doReset (refs w) u diff towardPlayer in
  let a := launchAngle u in
  ballRef r' = V3.mk 0 (TABLE_H / 2 + BALL_R + 0.01) 0
  /\ a = u / 2 - 0.25
  /\ -0.25 <= a < 0.25
  /\ velRef r'
     = V3.mk (sin a * 3.5) 0 ((if towardPlayer then 1 else -1) * cos a * 3.5)
  /\ V3.length (velRef r') = 3.5
  /\ 0 < V3.z (velRef r') * (if towardPlayer then PLAYER_Z else AI_Z)
  /\ firstHitRef r' = false
  /\ refs (startGame w diff u) = doReset (refs w) u diff true
  /\ (phase (game (handleScore w scorer)) = BetweenPoints ->
      timers (handleScore w scorer)
      = timers w ++ [{| timer_diff := props_difficulty (scene w);
                        timer_towardPlayer := isAI scorer |}])
  /\ refs (fireTimer w t u)
     = doReset (refs w) u (timer_diff t) (timer_towardPlayer t)
  /\ phase (game (fireTimer w t u)) = Playing
  /\ AI_Z < 0 < PLAYER_Z
  /\ 0 < V3.z (velRef (refs (startGame w diff u)))
  /\ (phase (game (handleScore w scorer)) = BetweenPoints ->
      exists t',
        timers (handleScore w scorer) = timers w ++ [t']
        /\ ballRef (refs (fireTimer (handleScore w scorer) t' u))
           = V3.mk 0 (TABLE_H / 2 + BALL_R + 0.01) 0
        /\ V3.length (velRef (refs (fireTimer (handleScore w scorer) t' u)))
           = 3.5
        /\ firstHitRef (refs (fireTimer (handleScore w scorer) t' u)) = false
        /\ match scorer with
           | AI =>
               0 < V3.z (velRef (refs (fireTimer (handleScore w scorer)
                                         t' u)))
           | Player =>
               V3.z (velRef (refs (fireTimer (handleScore w scorer) t' u)))
               < 0
           end)
  /\ (frameSignal w delta = Some scorer -> timers w = [] ->
      phase (game (useFrame w delta)) = BetweenPoints ->
      let w2 := step (useFrame w delta) (TimerFire u) in
      phase (game w2) = Playing
      /\ ballRef (refs w2) = V3.mk 0 (TABLE_H / 2 + BALL_R + 0.01) 0
      /\ V3.length (velRef (refs w2)) = 3.5
      /\ firstHitRef (refs w2) = false
      /\ match scorer with
         | AI => 0 < V3.z (velRef (refs w2))
         | Player => V3.z (velRef (refs w2)) < 0
         end).
Proof.
  intros Hu r' a.
  pose proof (launchAngle_cos u Hu) as Hc. fold a in Hc.
  assert (H35 : BALL_LAUNCH_SPEED = 3.5) by reflexivity.
  split; [reflexivity |].
  split; [subst a; unfold launchAngle; lra |].
  split; [apply launchAngle_range, Hu |].
  split; [reflexivity |].
  split; [subst r'; rewrite doReset_speed; consts; lra |].
  split.
  { subst r'. unfold doReset. simpl. fold a. consts.
    destruct towardPlayer; nra. }
  split; [reflexivity |]. split; [reflexivity |].
  split; [apply handleScore_between |].
  split; [reflexivity |]. split; [reflexivity |].
  split; [consts; lra |].
  split; [exact (doReset_direction (refs w) u diff true Hu) |].
  split.
  - intros Hb.
    destruct (scheduled_serve w scorer u Hu Hb)
      as (t' & Et & Eb & El & Ef & Ez).
    exists t'. rewrite <- H35. auto.
  - intros Hs Ht Hb w2.
    destruct (useFrame_signal w delta scorer Hs) as (_ & _ & E).
    set (w1 := with_scored true _) in E.
    rewrite E in Hb. subst w2. rewrite E.
    destruct (scheduled_serve w1 scorer u Hu Hb)
      as (t' & Et & Eb & El & Ef & Ez).
    assert (Et' : timers (handleScore w1 scorer) = [t'])
      by (rewrite Et; subst w1; simpl; now rewrite Ht).
    cbn [step]. rewrite Et'.
    rewrite <- H35. auto.
Qed.

Lemma reset_procedure_witness :
  0 <= 0.5 < 1
  /\ frameSignal aiMissed 0.02 = Some Player
  /\ timers aiMissed = []
  /\ phase (game (useFrame aiMissed 0.02)) = BetweenPoints
  /\ ballRef (refs (step (useFrame aiMissed 0.02) (TimerFire 0.5)))
     = V3.mk 0 (TABLE_H / 2 + BALL_R + 0.01) 0
  /\ V3.z (velRef (refs (step (useFrame aiMissed 0.02) (TimerFire 0.5)))) < 0.
Proof.
  assert (H : 0 <= 0.5 < 1) by lra.
  split; [exact H |]. split; [exact aiMissed_signal |].
  split; [reflexivity |]. split; [exact aiMissed_between |].
  destruct (reset_procedure aiMissed 0.5 easy true Player
              {| timer_diff := easy; timer_towardPlayer := true |} 0.02 H)
    as (_ & _ & _ & _ & _ & _ & _ & _ & _ & _ & _ & _ & _ & _ & He).
  destruct (He aiMissed_signal eq_refl aiMissed_between)
    as (_ & Hb & _ & _ & Hz).
  split; [exact Hb | exact Hz].
Defined.
